(** * The block-production scheduler of N42 (internal/miner/worker.go)

    A shallow embedding of the worker: the build context ([environment]),
    the assembly loop ([fillTransactions] and its closure [miningCommitTx]),
    the purge of the pending-task table ([clearPending]), the result handler
    (one iteration of [resultLoop]), the build dispatch ([commitWork],
    [commit]) and the interval controller ([recalcRecommit]); then the
    sealing dispatch ([taskLoop]) and the trigger of [workLoop], and, from
    the other sources, the subscription topic handler, the lock per
    address, access lists, the table of named databases and
    [FinalizeBlockExecution].

    Conventions.
    - Go's [uint64] gas quantities are [N]; [uint256] block numbers and
      [int]/[int32]/[int64] values are [Z], with the wrap-around written out
      where the source does arithmetic on them.
    - A Go [error] is a value of [error]; [errors.Is] walks the wrap chain.
    - A Go function that may panic returns a [go_result].
    - Collaborators that live outside this file (the state-transition
      function, the consensus engine, the chain store, the transaction pool)
      are Section variables or the fields of a record of collaborators:
      every theorem holds for all of them. *)

From Stdlib Require Import ZArith NArith List Lia Bool Floats.
From stdpp Require Import base numbers option list gmap strings.

Local Open Scope Z_scope.

(** ** Basic data *)

(** types.Hash and types.Address: fixed-size byte arrays, read as integers. *)
Definition Hash := Z.
Definition Address := Z.

(** A panic is kept apart from a returned value. *)
Inductive go_result (A : Type) : Type :=
| Ok (a : A)
| Panic (msg : string).
Arguments Ok {A} a.
Arguments Panic {A} msg.

(** Go errors.  The three interruption errors are the package's own
    (worker.go, lines 136-140).  [ErrNew] is [errors.New]/[fmt.Errorf]
    without [%w]; [ErrWrap] is [fmt.Errorf] with [%w]. *)
Inductive error : Type :=
| errBlockInterruptedByNewHead
| errBlockInterruptedByRecommit
| errBlockInterruptedByTimeout
| ErrGasLimitReached
| ErrNonceTooHigh
| ErrNonceTooLow
| ErrNew (msg : string)
| ErrWrap (msg : string) (inner : error).

Fixpoint error_eqb (a b : error) : bool :=
  match a, b with
  | errBlockInterruptedByNewHead, errBlockInterruptedByNewHead => true
  | errBlockInterruptedByRecommit, errBlockInterruptedByRecommit => true
  | errBlockInterruptedByTimeout, errBlockInterruptedByTimeout => true
  | ErrGasLimitReached, ErrGasLimitReached => true
  | ErrNonceTooHigh, ErrNonceTooHigh => true
  | ErrNonceTooLow, ErrNonceTooLow => true
  | ErrNew m, ErrNew m' => String.eqb m m'
  | ErrWrap m i, ErrWrap m' i' => String.eqb m m' && error_eqb i i'
  | _, _ => false
  end.

(** errors.Is(err, target) for a non-nil [err]: true when [err] or an error
    it wraps is [target]. *)
Fixpoint errors_Is (err target : error) : bool :=
  error_eqb err target ||
  match err with
  | ErrWrap _ inner => errors_Is inner target
  | _ => false
  end.

(** block.Log and block.Receipt, with the fields the worker reads or writes. *)
Record Log := mkLog {
  log_Data : Z;
  log_BlockHash : Hash }.

Record Receipt := mkReceipt {
  receipt_GasUsed : N;
  receipt_Logs : list Log;
  receipt_BlockHash : Hash;
  receipt_BlockNumber : Z;
  receipt_TransactionIndex : Z }.

(** block.Header. *)
Record Header := mkHeader {
  hdr_ParentHash : Hash;
  hdr_Coinbase : Address;
  hdr_Number : Z;
  hdr_GasLimit : N;
  hdr_GasUsed : N;
  hdr_Time : Z;
  hdr_Difficulty : Z;
  hdr_BaseFee : Z }.

Definition hdr_set_GasUsed (h : Header) (g : N) : Header :=
  mkHeader (hdr_ParentHash h) (hdr_Coinbase h) (hdr_Number h)
           (hdr_GasLimit h) g (hdr_Time h) (hdr_Difficulty h) (hdr_BaseFee h).
Definition hdr_set_GasLimit (h : Header) (g : N) : Header :=
  mkHeader (hdr_ParentHash h) (hdr_Coinbase h) (hdr_Number h)
           g (hdr_GasUsed h) (hdr_Time h) (hdr_Difficulty h) (hdr_BaseFee h).
Definition hdr_set_BaseFee (h : Header) (f : Z) : Header :=
  mkHeader (hdr_ParentHash h) (hdr_Coinbase h) (hdr_Number h)
           (hdr_GasLimit h) (hdr_GasUsed h) (hdr_Time h) (hdr_Difficulty h) f.

(** block.CopyHeader: a fresh header with the same field values. *)
Definition CopyHeader (h : Header) : Header :=
  mkHeader (hdr_ParentHash h) (hdr_Coinbase h) (hdr_Number h)
           (hdr_GasLimit h) (hdr_GasUsed h) (hdr_Time h) (hdr_Difficulty h) (hdr_BaseFee h).

(** transaction.Transaction: its hash and an opaque payload. *)
Record Transaction := mkTransaction {
  tx_Hash : Hash;
  tx_Payload : Z }.

(** ** GasPool *)

(** Modelled from the spec: common.GasPool is not among the sources.  The
    spec (3, GasBudget) says it wraps a single non-negative gas quantity,
    that [add(n)] increases it and that it never wraps; [new(GasPool)] is
    Go's zero value. *)
Definition GasPool := N.
Definition GasPool_new : GasPool := 0%N.
Definition Gas (gp : GasPool) : N := gp.
Definition AddGas (gp : GasPool) (amount : N) : GasPool := (gp + amount)%N.

(** ** The build context *)

Record environment := mkEnvironment {
  env_ancestors : gset Hash;
  env_family : gset Hash;
  env_tcount : Z;
  env_gasPool : GasPool;
  env_coinbase : Address;
  env_header : Header;
  env_txs : list Transaction;
  env_receipts : list Receipt }.

Definition env_set_txs (e : environment) (l : list Transaction) : environment :=
  mkEnvironment (env_ancestors e) (env_family e) (env_tcount e) (env_gasPool e)
                (env_coinbase e) (env_header e) l (env_receipts e).
Definition env_set_receipts (e : environment) (l : list Receipt) : environment :=
  mkEnvironment (env_ancestors e) (env_family e) (env_tcount e) (env_gasPool e)
                (env_coinbase e) (env_header e) (env_txs e) l.
Definition env_set_gasPool (e : environment) (gp : GasPool) : environment :=
  mkEnvironment (env_ancestors e) (env_family e) (env_tcount e) gp
                (env_coinbase e) (env_header e) (env_txs e) (env_receipts e).
Definition env_set_header (e : environment) (h : Header) : environment :=
  mkEnvironment (env_ancestors e) (env_family e) (env_tcount e) (env_gasPool e)
                (env_coinbase e) h (env_txs e) (env_receipts e).
Definition env_set_tcount (e : environment) (n : Z) : environment :=
  mkEnvironment (env_ancestors e) (env_family e) n (env_gasPool e)
                (env_coinbase e) (env_header e) (env_txs e) (env_receipts e).

(** Go's [int] is 64 bits wide on the platforms the node runs on. *)
Definition wrap_int (z : Z) : Z := (z + 2 ^ 63) mod 2 ^ 64 - 2 ^ 63.

(** environment.copy (lines 96-113): sets are cloned, the header is copied,
    [txs] is copied element by element, [receipts] is the same slice. *)
Definition env_copy (e : environment) : environment :=
  mkEnvironment (env_ancestors e) (env_family e) (env_tcount e) (env_gasPool e)
                (env_coinbase e) (CopyHeader (env_header e))
                (env_txs e) (env_receipts e).

(** Interruption signals (lines 115-120). *)
Definition commitInterruptNone : Z := 0.
Definition commitInterruptNewHead : Z := 1.
Definition commitInterruptResubmit : Z := 2.
Definition commitInterruptTimeout : Z := 3.

Definition staleThreshold : Z := 7.

(** signalToErr (lines 812-823). *)
Definition signalToErr (signal : Z) : go_result error :=
  if signal =? commitInterruptNewHead then Ok errBlockInterruptedByNewHead
  else if signal =? commitInterruptResubmit then Ok errBlockInterruptedByRecommit
  else if signal =? commitInterruptTimeout then Ok errBlockInterruptedByTimeout
  else Panic "undefined signal".

(** makeEnv (lines 701-726).  [blocks] is what
    [w.chain.GetBlocksFromHash(parent.ParentHash, 3)] returned, as the hashes
    of those blocks. *)
Definition makeEnv (blocks : list Hash) (header : Header) (coinbase : Address)
  : environment :=
  let env := mkEnvironment ∅ ∅ 0 GasPool_new coinbase header [] [] in
  let env := env_set_gasPool env (AddGas GasPool_new (hdr_GasLimit header)) in
  fold_left (fun e h =>
               mkEnvironment ({[ h ]} ∪ env_ancestors e) ({[ h ]} ∪ env_family e)
                             (env_tcount e) (env_gasPool e) (env_coinbase e)
                             (env_header e) (env_txs e) (env_receipts e))
            blocks env.

(** ** Assembly *)

Section Assembly.

(** The journaled part of the intra-block state. *)
Context {World : Type}.

(** Modelled from the spec: state.IntraBlockState is not among the
    sources.  The spec (6) gives it [snapshot()/revertToSnapshot()] for
    rollback: [Snapshot] records the journaled state under a fresh revision
    id, [RevertToSnapshot id] puts that state back and forgets the later
    revisions.  [Prepare] sets the transaction hash, block hash and index
    used for the logs; these are not journaled. *)
Record IntraBlockState := mkIBS {
  ibs_world : World;
  ibs_revisions : list World;
  ibs_thash : Hash;
  ibs_bhash : Hash;
  ibs_txIndex : Z }.

Definition ibs_set_world (s : IntraBlockState) (w : World) : IntraBlockState :=
  mkIBS w (ibs_revisions s) (ibs_thash s) (ibs_bhash s) (ibs_txIndex s).

Definition Prepare (s : IntraBlockState) (thash bhash : Hash) (ti : Z)
  : IntraBlockState :=
  mkIBS (ibs_world s) (ibs_revisions s) thash bhash ti.

Definition Snapshot (s : IntraBlockState) : nat * IntraBlockState :=
  (length (ibs_revisions s),
   mkIBS (ibs_world s) (ibs_revisions s ++ [ibs_world s])
         (ibs_thash s) (ibs_bhash s) (ibs_txIndex s)).

Definition RevertToSnapshot (s : IntraBlockState) (id : nat) : IntraBlockState :=
  match nth_error (ibs_revisions s) id with
  | Some w => mkIBS w (firstn id (ibs_revisions s))
                    (ibs_thash s) (ibs_bhash s) (ibs_txIndex s)
  | None => s
  end.

(** What one call of internal.ApplyTransaction leaves behind: the state and
    the gas pool it was given by reference, the [usedGas] counter
    ([&header.GasUsed]) and the receipt or the error it returns. *)
Record ApplyOutcome := mkApplyOutcome {
  ao_world : World;
  ao_gasPool : GasPool;
  ao_usedGas : N;
  ao_result : error + Receipt }.

(** params.TxGas, a constant of the params package. *)
Variable TxGas : N.

(** internal.ApplyTransaction, the external state-transition function, as a
    function of what the worker passes to it: the fee recipient, the gas
    pool, the intra-block state, the header and the transaction.  It works
    on the journaled state; the snapshots taken before the call stay
    valid, as the journal guarantees. *)
Variable ApplyTransaction :
  Address -> GasPool -> IntraBlockState -> Header -> Transaction -> ApplyOutcome.

(** The closure miningCommitTx (lines 604-619).  Its parameter [current]
    and the captured [env] are the same object at the only call site
    (line 634), so one environment is threaded. *)
Definition miningCommitTx (txn : Transaction) (coinbase : Address)
           (ibs : IntraBlockState) (env : environment)
  : (error + list Log) * environment * IntraBlockState :=
  let ibs := Prepare ibs (tx_Hash txn) 0 (env_tcount env) in
  let gasSnap := Gas (env_gasPool env) in
  let '(snap, ibs) := Snapshot ibs in
  let out := ApplyTransaction coinbase (env_gasPool env) ibs (env_header env) txn in
  let ibs := ibs_set_world ibs (ao_world out) in
  let env := env_set_gasPool env (ao_gasPool out) in
  let env := env_set_header env (hdr_set_GasUsed (env_header env) (ao_usedGas out)) in
  match ao_result out with
  | inl err =>
      let ibs := RevertToSnapshot ibs snap in
      let env := env_set_gasPool env (AddGas GasPool_new gasSnap) in
      (inl err, env, ibs)
  | inr receipt =>
      let env := env_set_txs env (env_txs env ++ [txn]) in
      let env := env_set_receipts env (env_receipts env ++ [receipt]) in
      (inr (receipt_Logs receipt), env, ibs)
  end.

(** The interruption flag: a nil pointer, or an atomic cell written by the
    trigger loop; [load k] is the value the k-th check of the loop reads. *)
Definition interrupt_flag := option (nat -> Z).

(** The value the k-th check reads (lines 624-625); a nil flag is never
    loaded and counts as no signal. *)
Definition signal_at (interrupt : interrupt_flag) (k : nat) : Z :=
  match interrupt with
  | Some load => load k
  | None => commitInterruptNone
  end.

(** The outcome of the call of ApplyTransaction that miningCommitTx makes
    for [txn] in the context [env] and the state [ibs]. *)
Definition attempt (txn : Transaction) (ibs : IntraBlockState) (env : environment)
  : ApplyOutcome :=
  ApplyTransaction (env_coinbase env) (env_gasPool env)
                   (snd (Snapshot (Prepare ibs (tx_Hash txn) 0 (env_tcount env))))
                   (env_header env) txn.

(** How one iteration of the loop of fillTransactions ends. *)
Inductive step : Type :=
| Continue (env : environment) (ibs : IntraBlockState) (logged : option error)
| Break
| Return (r : go_result error).

(** The body of the loop (lines 623-648), at the k-th candidate. *)
Definition fill_body (interrupt : interrupt_flag) (k : nat) (tx : Transaction)
           (env : environment) (ibs : IntraBlockState) : step :=
  let signal := signal_at interrupt k in
  if negb (signal =? commitInterruptNone) then Return (signalToErr signal)
  else if (Gas (env_gasPool env) <? TxGas)%N then Break
  else
    let '(res, env, ibs) := miningCommitTx tx (env_coinbase env) ibs env in
    match res with
    | inl err =>
        if errors_Is err ErrGasLimitReached then Continue env ibs None
        else if errors_Is err ErrNonceTooHigh then Continue env ibs None
        else if errors_Is err ErrNonceTooLow then Continue env ibs None
        else Continue env ibs (Some err)
    | inr _ =>
        Continue (env_set_tcount env (wrap_int (env_tcount env + 1))) ibs None
    end.

(** What fillTransactions hands back: the returned error (or nil) or a
    panic, the context and the state as it left them, and the errors it
    logged with log.Error. *)
Record fill_result := mkFillResult {
  fr_ret : go_result (option error);
  fr_env : environment;
  fr_ibs : IntraBlockState;
  fr_logged : list error }.

Definition lift_err (r : go_result error) : go_result (option error) :=
  match r with
  | Ok e => Ok (Some e)
  | Panic m => Panic m
  end.

Definition log_cons (l : option error) (r : fill_result) : fill_result :=
  mkFillResult (fr_ret r) (fr_env r) (fr_ibs r)
               (match l with Some e => e :: fr_logged r | None => fr_logged r end).

(** The loop over the candidates (lines 622-651). *)
Fixpoint fill_loop (interrupt : interrupt_flag) (k : nat) (cands : list Transaction)
         (env : environment) (ibs : IntraBlockState) : fill_result :=
  match cands with
  | [] => mkFillResult (Ok None) env ibs []
  | tx :: rest =>
      match fill_body interrupt k tx env ibs with
      | Continue env' ibs' l => log_cons l (fill_loop interrupt (S k) rest env' ibs')
      | Break => mkFillResult (Ok None) env ibs []
      | Return r => mkFillResult (lift_err r) env ibs []
      end
  end.

(** The contexts the loop goes through, one after each completed iteration. *)
Fixpoint fill_trace (interrupt : interrupt_flag) (k : nat) (cands : list Transaction)
         (env : environment) (ibs : IntraBlockState) : list environment :=
  match cands with
  | [] => []
  | tx :: rest =>
      match fill_body interrupt k tx env ibs with
      | Continue env' ibs' _ => env' :: fill_trace interrupt (S k) rest env' ibs'
      | _ => []
      end
  end.

(** fillTransactions (lines 593-652).  [pool] is what
    [w.txsPool.GetTransaction()] returned. *)
Definition fillTransactions (pool : error + list Transaction)
           (interrupt : interrupt_flag) (env : environment) (ibs : IntraBlockState)
  : fill_result :=
  let env := env_set_txs env [] in
  match pool with
  | inl err => mkFillResult (Ok (Some err)) env ibs []
  | inr cands => fill_loop interrupt 0 cands env ibs
  end.


End Assembly.

(** The gas used by a sequence of receipts. *)
Definition sum_gasUsed (rs : list Receipt) : N :=
  fold_right (fun r acc => (receipt_GasUsed r + acc)%N) 0%N rs.


(** ** Fixed-width conversions *)

Definition Uint64 (z : Z) : Z := z mod 2 ^ 64.
Definition Uint256 (z : Z) : Z := z mod 2 ^ 256.

(** uint256.Int.Add and uint256.Int.Cmp. *)
Definition uint256_Add (x y : Z) : Z := Uint256 (x + y).
Definition uint256_Cmp (x y : Z) : Z :=
  match x ?= y with
  | Lt => -1
  | Eq => 0
  | Gt => 1
  end.

(** ** Floating point

    Go's [float64] is IEEE 754 binary64, as are Rocq's primitive floats.
    Every operation is rounded on its own (no fused multiply-add). *)

(** float64(n) for an integer [n]: the nearest binary64 value, ties to even. *)
Definition float64_of_Z (z : Z) : float :=
  SF2Prim (binary_normalize prec emax z 0 false).

(** int64(f): the value truncated toward zero.  For a NaN, an infinity or a
    value outside the range of int64 the result depends on the
    implementation (Go specification, Conversions): [None] here. *)
Definition mag_trunc (m : positive) (e : Z) : Z :=
  if 0 <=? e then Z.pos m * 2 ^ e else Z.pos m / 2 ^ (- e).

Definition SF_trunc (x : spec_float) : option Z :=
  match x with
  | S754_zero _ => Some 0
  | S754_finite s m e => Some (if s then - mag_trunc m e else mag_trunc m e)
  | _ => None
  end.

Definition int64_of_float64 (f : float) : option Z :=
  match SF_trunc (Prim2SF f) with
  | Some z => if (- 2 ^ 63 <=? z) && (z <? 2 ^ 63) then Some z else None
  | None => None
  end.

(** ** The interval controller *)

(** Lines 122-134; durations are nanoseconds.  [1-intervalAdjustRatio] is a
    constant expression: Go evaluates it exactly and rounds it once. *)
Definition minPeriodInterval : Z := 1000000000.
Definition maxRecommitInterval : Z := 12 * 1000000000.
Definition intervalAdjustRatio : float := 0x1.999999999999ap-4%float.
Definition one_minus_intervalAdjustRatio : float := 0x1.ccccccccccccdp-1%float.
Definition intervalAdjustBias : float := 200000000%float.

(** intervalAdjust (lines 142-146). *)
Record intervalAdjust := mkIntervalAdjust {
  ia_ratio : float;
  ia_inc : bool }.

(** recalcRecommit (lines 489-509). *)
Definition recalcRecommit (minRecommit prev : Z) (target : float) (inc : bool)
  : option Z :=
  let prevF := float64_of_Z prev in
  let next :=
    if inc then
      let next := (prevF * one_minus_intervalAdjustRatio
                   + intervalAdjustRatio * (target + intervalAdjustBias))%float in
      let max := float64_of_Z maxRecommitInterval in
      if (max <? next)%float then max else next
    else
      let next := (prevF * one_minus_intervalAdjustRatio
                   + intervalAdjustRatio * (target - intervalAdjustBias))%float in
      let min := float64_of_Z minRecommit in
      if (next <? min)%float then min else next in
  int64_of_float64 next.

(** The feedback branch of workLoop (lines 577-588): the interval after one
    message from the resubmit-adjust channel. *)
Definition adjust_recommit (minRecommit recommit : Z) (adjust : intervalAdjust)
  : option Z :=
  if ia_inc adjust then
    let target := (float64_of_Z recommit / ia_ratio adjust)%float in
    recalcRecommit minRecommit recommit target true
  else
    recalcRecommit minRecommit recommit (float64_of_Z minRecommit) false.

(** ** The worker *)

(** block.Block as the worker sees it: the header, the hash of the sealed
    block, the transactions and the number of verifiers of the body. *)
Record Block := mkBlock {
  blk_Header : Header;
  blk_Hash : Hash;
  blk_Transactions : list Transaction;
  blk_Verifiers : nat }.

Definition Number64 (b : Block) : Z := hdr_Number (blk_Header b).

Record generateParams := mkGenerateParams {
  gp_timestamp : Z;
  gp_parentHash : Hash;
  gp_coinbase : Address;
  gp_random : Hash;
  gp_noTxs : bool }.

Section Worker.

Context {World : Type}.

(** task (lines 59-65). *)
Record task := mkTask {
  task_receipts : list Receipt;
  task_state : @IntraBlockState World;
  task_block : Block;
  task_createdAt : Z;
  task_nopay : list (Address * Z) }.

(** The fields of worker (lines 148-182) that the modelled functions read
    or write. *)
Record worker := mkWorker {
  w_coinbase : Address;
  w_pendingTasks : gmap Hash task;
  w_running : Z;
  w_snapshotBlock : option Block;
  w_snapshotReceipts : list Receipt }.

Definition isRunning (w : worker) : bool := w_running w =? 1.

(** What the worker sends or calls, in order. *)
Inductive event : Type :=
| EvResubmitAdjust (a : intervalAdjust)
| EvMinedEntire (h : Header) (txs : list (list Z))
| EvTask (t : task)
| EvLogError (msg : string)
| EvWriteBlockWithState (b : Block) (receipts : list Receipt)
| EvBlockSignGauge (n : nat)
| EvNewLogs (logs : list Log)
| EvSealedBlock (b : Block)
| EvChainHighestBlock (b : Block).

(** *** clearPending *)

(** The closure clearPending (lines 544-552): a range over the map that
    deletes the entries the test selects.  Go allows deleting during a
    range; each entry present at the start is visited once. *)
Definition clearPending_test (number : Z) (t : task) : bool :=
  uint256_Cmp number (uint256_Add (Number64 (task_block t)) staleThreshold) <? 1.

Definition clearPending (number : Z) (pendingTasks : gmap Hash task)
  : gmap Hash task :=
  fold_left (fun m ht => if clearPending_test number (snd ht)
                         then delete (fst ht) m else m)
            (map_to_list pendingTasks) pendingTasks.

(** *** resultLoop *)

(** The chain store and the engine, as the result handler uses them. *)
Record result_collab (Chain : Type) := mkResultCollab {
  HasBlock : Chain -> Hash -> Z -> bool;
  WriteBlockWithState :
    Chain -> Block -> list Receipt -> @IntraBlockState World -> list (Address * Z)
    -> Chain * option error;
  SealedBlock : Chain -> Block -> Chain * option error;
  SealHash : Header -> Hash }.
Arguments HasBlock {Chain}.
Arguments WriteBlockWithState {Chain}.
Arguments SealedBlock {Chain}.
Arguments SealHash {Chain}.

(** The copy of the task's receipts with the block location filled in
    (lines 308-332). *)
Definition stamp_receipts (hash : Hash) (number : Z) (rs : list Receipt)
  : list Receipt :=
  imap (fun i taskReceipt =>
          mkReceipt (receipt_GasUsed taskReceipt)
                    (map (fun taskLog => mkLog (log_Data taskLog) hash)
                         (receipt_Logs taskReceipt))
                    hash number (Z.of_nat i))
       rs.

(** One delivery on resultCh (lines 284-362): the chain store afterwards and
    what the handler did. *)
Definition resultLoop_step {Chain : Type} (c : result_collab Chain)
           (w : worker) (chain : Chain) (blk : option Block)
  : Chain * list event :=
  match blk with
  | None => (chain, [])
  | Some blk =>
      if HasBlock c chain (blk_Hash blk) (Uint64 (Number64 blk)) then (chain, [])
      else
        let sealhash := SealHash c (blk_Header blk) in
        let hash := blk_Hash blk in
        match w_pendingTasks w !! sealhash with
        | None => (chain, [EvLogError "Block found but no relative pending task"])
        | Some task =>
            let receipts := stamp_receipts hash (Number64 blk) (task_receipts task) in
            let logs := concat (map receipt_Logs receipts) in
            let '(chain, err) :=
              WriteBlockWithState c chain blk receipts (task_state task) (task_nopay task) in
            match err with
            | Some _ =>
                (chain, [EvWriteBlockWithState blk receipts;
                         EvLogError "Failed writing block to chain"])
            | None =>
                let evs := [EvWriteBlockWithState blk receipts;
                            EvBlockSignGauge (blk_Verifiers blk)]
                           ++ (if (0 <? length logs)%nat then [EvNewLogs logs] else []) in
                let '(chain, err) := SealedBlock c chain blk in
                match err with
                | Some _ =>
                    (chain, evs ++ [EvSealedBlock blk;
                                    EvLogError "Failed Broadcast block to p2p network"])
                | None =>
                    (chain, evs ++ [EvSealedBlock blk; EvChainHighestBlock blk])
                end
            end
        end
  end.

(** How many times the handler called WriteBlockWithState. *)
Definition is_write (e : event) : bool :=
  match e with
  | EvWriteBlockWithState _ _ => true
  | _ => false
  end.
Definition count_writes (evs : list event) : nat :=
  length (List.filter is_write evs).

(** *** commitWork *)

(** What one build cycle gets from outside the worker. *)
Record build_collab := mkBuildCollab {
  TxGas : N;
  ApplyTransaction :
    Address -> GasPool -> @IntraBlockState World -> Header -> Transaction
    -> @ApplyOutcome World;
  (* w.chain.CurrentBlock().Header(), GetBlockByHash, GetBlocksFromHash *)
  CurrentHeader : Header;
  GetBlockByHash : Hash -> option Header;
  GetBlocksFromHash : Hash -> nat -> list Hash;
  HeaderHash : Header -> Hash;
  (* CalcGasLimit, w.minerConf.GasCeil, params.ElasticityMultiplier *)
  CalcGasLimit : N -> N -> N;
  GasCeil : N;
  ElasticityMultiplier : N;
  (* w.chainConfig.IsLondon, IsBeijing, misc.CalcBaseFee *)
  IsLondon : Z -> bool;
  IsBeijing : Z -> bool;
  CalcBaseFee : Header -> Z;
  (* w.engine.Prepare, w.engine.FinalizeAndAssemble *)
  enginePrepare : Header -> error + Header;
  FinalizeAndAssemble :
    Header -> @IntraBlockState World -> list Transaction -> list Receipt
    -> error + (Block * list (Address * Z) * list (Address * Z) * World);
  (* w.chain.DB().BeginRo and the state read through it *)
  BeginRo : option error;
  initialWorld : World;
  (* w.txsPool.GetTransaction *)
  GetTransaction : error + list Transaction;
  (* tx.Marshal, block.NewBlockFromReceipt *)
  Marshal : Transaction -> error + list Z;
  NewBlockFromReceipt :
    Header -> list Transaction -> list Receipt -> list (Address * Z) -> Block;
  (* whether w.ctx is cancelled when the task is offered on taskCh *)
  ctxDone : option error;
  (* time.Now() *)
  now : Z }.

(** prepareWork (lines 654-699). *)
Definition prepareWork (c : build_collab) (param : generateParams)
  : error + environment :=
  let timestamp := gp_timestamp param in
  let found :=
    if negb (gp_parentHash param =? 0)
    then GetBlockByHash c (gp_parentHash param)
    else Some (CurrentHeader c) in
  match found with
  | None => inl (ErrNew "missing parent")
  | Some parent =>
      let timestamp :=
        if gp_timestamp param <=? hdr_Time parent
        then Uint64 (hdr_Time parent + 1) else timestamp in
      let header :=
        mkHeader (HeaderHash c parent) (gp_coinbase param)
                 (uint256_Add (hdr_Number parent) 1)
                 (CalcGasLimit c (hdr_GasLimit parent) (GasCeil c))
                 0%N timestamp 0 0 in
      let header :=
        if IsLondon c (Uint64 (hdr_Number header)) then
          let header := hdr_set_BaseFee header (CalcBaseFee c parent) in
          if negb (IsLondon c (Uint64 (hdr_Number parent))) then
            let parentGasLimit :=
              ((hdr_GasLimit parent * ElasticityMultiplier c) mod 2 ^ 64)%N in
            hdr_set_GasLimit header (CalcGasLimit c parentGasLimit (GasCeil c))
          else header
        else header in
      match enginePrepare c header with
      | inl err => inl err
      | inr header =>
          inr (makeEnv (GetBlocksFromHash c (hdr_ParentHash parent) 3%nat)
                       header (gp_coinbase param))
      end
  end.

(** What commit and commitWork hand back: the returned error (or nil) or a
    panic, the worker with its pending snapshot, and the events in order. *)
Record commit_result := mkCommitResult {
  cr_ret : go_result (option error);
  cr_worker : worker;
  cr_events : list event }.

(** updateSnapshot (lines 797-810); copyReceipts copies every receipt. *)
Definition updateSnapshot (c : build_collab) (w : worker) (env : environment)
           (rewards : list (Address * Z)) : worker :=
  mkWorker (w_coinbase w) (w_pendingTasks w) (w_running w)
           (Some (NewBlockFromReceipt c (env_header env) (env_txs env)
                                      (env_receipts env) rewards))
           (env_receipts env).

(** The marshalling loop of commit (lines 737-745); a failure panics. *)
Fixpoint marshal_all (c : build_collab) (txs : list Transaction)
  : go_result (list (list Z)) :=
  match txs with
  | [] => Ok []
  | tx :: rest =>
      match Marshal c tx with
      | inl _ => Panic "marshal"
      | inr b =>
          match marshal_all c rest with
          | Ok bs => Ok (b :: bs)
          | Panic m => Panic m
          end
      end
  end.

(** commit (lines 728-777). *)
Definition commit (c : build_collab) (w : worker) (env : environment)
           (ibs : @IntraBlockState World) : commit_result :=
  if isRunning w then
    let env := env_copy env in
    match FinalizeAndAssemble c (env_header env) ibs (env_txs env) (env_receipts env) with
    | inl err => mkCommitResult (Ok (Some err)) w []
    | inr (iblock, rewards, unpay, world) =>
        let ibs := ibs_set_world ibs world in
        let mined :=
          if IsBeijing c (Uint64 (hdr_Number (env_header env))) then
            match marshal_all c (env_txs env) with
            | Ok txs => Ok [EvMinedEntire (blk_Header iblock) txs]
            | Panic m => Panic m
            end
          else Ok [] in
        match mined with
        | Panic m => mkCommitResult (Panic m) w []
        | Ok evs =>
            let w := updateSnapshot c w env rewards in
            match ctxDone c with
            | Some err => mkCommitResult (Ok (Some err)) w evs
            | None =>
                mkCommitResult (Ok None) w
                  (evs ++ [EvTask (mkTask (env_receipts env) ibs iblock (now c) unpay)])
            end
        end
    end
  else mkCommitResult (Ok None) w [].

(** The feedback of commitWork (lines 458-471) for what fillTransactions
    returned. *)
Definition feedback (err : option error) (current : environment) : list event :=
  match err with
  | None => [EvResubmitAdjust (mkIntervalAdjust 0%float false)]
  | Some e =>
      if errors_Is e errBlockInterruptedByRecommit then
        let gaslimit := Z.of_N (hdr_GasLimit (env_header current)) in
        let ratio :=
          (float64_of_Z (Uint64 (gaslimit - Z.of_N (Gas (env_gasPool current))))
           / float64_of_Z gaslimit)%float in
        let ratio := if (ratio <? intervalAdjustRatio)%float
                     then intervalAdjustRatio else ratio in
        [EvResubmitAdjust (mkIntervalAdjust ratio true)]
      else []
  end.

(** commitWork (lines 421-487). *)
Definition commitWork (c : build_collab) (w : worker)
           (interrupt : interrupt_flag) (noempty : bool) (timestamp : Z)
  : commit_result :=
  if isRunning w && (w_coinbase w =? 0) then
    mkCommitResult (Ok (Some (ErrNew "coinbase is empty"))) w []
  else
    match prepareWork c (mkGenerateParams (Uint64 timestamp) 0 (w_coinbase w) 0 false) with
    | inl err => mkCommitResult (Ok (Some err)) w [EvLogError "cannot prepare work"]
    | inr current =>
        match BeginRo c with
        | Some err => mkCommitResult (Ok (Some err)) w [EvLogError "work.commitWork failed"]
        | None =>
            let ibs := mkIBS (initialWorld c) [] 0 0 0 in
            let fr := fillTransactions (TxGas c) (ApplyTransaction c)
                                       (GetTransaction c) interrupt current ibs in
            match fr_ret fr with
            | Panic m => mkCommitResult (Panic m) w []
            | Ok err =>
                let current := fr_env fr in
                let fb := feedback err current in
                let r := commit c w current (fr_ibs fr) in
                match cr_ret r with
                | Ok (Some _) =>
                    mkCommitResult (cr_ret r) (cr_worker r)
                                   (fb ++ cr_events r ++ [EvLogError "w.commit failed"])
                | _ => mkCommitResult (cr_ret r) (cr_worker r) (fb ++ cr_events r)
                end
            end
        end
    end.

End Worker.

Arguments HasBlock {World Chain}.
Arguments WriteBlockWithState {World Chain}.
Arguments SealedBlock {World Chain}.
Arguments SealHash {World Chain}.

(** ** The sealing dispatch *)

Section TaskLoop.

Context {World : Type}.

(** The local variables of taskLoop (lines 371-374): whether [stopCh]
    holds a channel, and the seal hash of the last task dispatched. *)
Record taskLoop_state := mkTaskLoopState {
  tl_stopCh : bool;
  tl_prev : Hash }.

(** The state taskLoop starts in: a nil channel, the zero hash. *)
Definition taskLoop_init : taskLoop_state := mkTaskLoopState false 0.

(** What taskLoop does, in order. *)
Inductive task_event : Type :=
| TeHook (t : @task World)
| TeInterrupt
| TeSeal (b : Block)
| TeLogWarn (err : error)
| TeSleep (nanoseconds : Z)
| TeStart
| TeLogDebug.

(** The engine and the hook, as taskLoop uses them: engine.SealHash,
    the error engine.Seal returns (or nil), consensus.ErrNotEnoughSign,
    and whether newTaskHook is set. *)
Record seal_collab := mkSealCollab {
  sc_SealHash : Header -> Hash;
  sc_Seal : Block -> option error;
  sc_ErrNotEnoughSign : error;
  sc_hasHook : bool }.

Definition w_set_pendingTasks (w : @worker World) (m : gmap Hash (@task World))
  : @worker World :=
  mkWorker (w_coinbase w) m (w_running w) (w_snapshotBlock w) (w_snapshotReceipts w).

(** One task received on taskCh (lines 387-416). *)
Definition taskLoop_step (c : seal_collab) (st : taskLoop_state)
           (w : @worker World) (t : @task World)
  : taskLoop_state * @worker World * list task_event :=
  let hook := if sc_hasHook c then [TeHook t] else [] in
  let sealHash := sc_SealHash c (blk_Header (task_block t)) in
  if sealHash =? tl_prev st then (st, w, hook)
  else
    let interrupt := if tl_stopCh st then [TeInterrupt] else [] in
    let st := mkTaskLoopState true sealHash in
    let w := w_set_pendingTasks w (<[ sealHash := t ]> (w_pendingTasks w)) in
    match sc_Seal c (task_block t) with
    | Some err =>
        let w := w_set_pendingTasks w (delete sealHash (w_pendingTasks w)) in
        (st, w,
         hook ++ interrupt ++ [TeSeal (task_block t); TeLogWarn err]
         ++ (if errors_Is err (sc_ErrNotEnoughSign c)
             then [TeSleep 1000000000; TeStart] else []))
    | None =>
        (st, w, hook ++ interrupt ++ [TeSeal (task_block t); TeLogDebug])
    end.

Definition is_seal (e : task_event) : bool :=
  match e with
  | TeSeal _ => true
  | _ => false
  end.

End TaskLoop.

(** ** The trigger loop *)

(** newWorkReq (lines 67-71); the interruption flag is a pointer to an
    atomic cell, here the index of the cell. *)
Record newWorkReq := mkNewWorkReq {
  req_interrupt : nat;
  req_noempty : bool;
  req_timestamp : Z }.

(** The local variables of workLoop (lines 514-518) and the atomic cells
    allocated by its closure commit: [wl_interrupt] is nil or points to the
    cell of the last request. *)
Record workLoop_state := mkWorkLoopState {
  wl_cells : list Z;
  wl_interrupt : option nat;
  wl_timestamp : Z;
  wl_recommit : Z }.

Inductive trigger_event : Type :=
| TrNewWork (req : newWorkReq)
| TrTimerReset (d : Z).

(** The closure commit of workLoop (lines 530-542).  [ctxDone] tells
    whether the select takes the cancellation instead of the send. *)
Definition workLoop_commit (ctxDone : bool) (st : workLoop_state)
           (noempty : bool) (s : Z) : workLoop_state * list trigger_event :=
  let cells := match wl_interrupt st with
               | Some i => <[ i := s ]> (wl_cells st)
               | None => wl_cells st
               end in
  let interrupt := length cells in
  let st := mkWorkLoopState (cells ++ [0]) (Some interrupt)
                            (wl_timestamp st) (wl_recommit st) in
  if ctxDone then (st, [])
  else (st, [TrNewWork (mkNewWorkReq interrupt noempty (wl_timestamp st));
             TrTimerReset (wl_recommit st)]).

Section TriggerLoop.

Context {World : Type}.

(** A start signal or a new head (lines 558-566): [number] is the number
    of the current block or of the block of the event, [now] is
    time.Now().Unix(). *)
Definition workLoop_trigger (ctxDone : bool) (number now : Z)
           (st : workLoop_state) (w : @worker World)
  : workLoop_state * @worker World * list trigger_event :=
  let w := w_set_pendingTasks w (clearPending number (w_pendingTasks w)) in
  let st := mkWorkLoopState (wl_cells st) (wl_interrupt st) now (wl_recommit st) in
  let '(st, evs) := workLoop_commit ctxDone st false commitInterruptNewHead in
  (st, w, evs).

End TriggerLoop.

(** The flag of the last request points to a cell that exists. *)
Definition workLoop_inv (st : workLoop_state) : Prop :=
  match wl_interrupt st with
  | Some i => (i < length (wl_cells st))%nat
  | None => True
  end.

(** ** The subscription topic handler (internal/sync) *)

(** A topic is a string, a subscription a pointer (0 for nil), a digest
    four bytes read as an integer. *)
Record subTopicHandler := mkSubTopicHandler {
  subTopics : gmap string Z;
  digestMap : gmap Z Z }.

Definition newSubTopicHandler : subTopicHandler := mkSubTopicHandler ∅ ∅.

(** The counts of the digest map are Go ints. *)
Definition digests_int (s : subTopicHandler) : Prop :=
  map_Forall (fun _ n => - 2 ^ 63 <= n < 2 ^ 63) (digestMap s).

(** No digest is kept with a count of zero or less. *)
Definition digests_positive (s : subTopicHandler) : Prop :=
  map_Forall (fun _ n => 0 < n) (digestMap s).

Section SubTopics.

(** p2p.ExtractGossipDigest, of the p2p package. *)
Variable ExtractGossipDigest : string -> error + Z.

(** addTopic (lines 27-37); the second component is the error it logs. *)
Definition addTopic (s : subTopicHandler) (topic : string) (sub : Z)
  : subTopicHandler * option error :=
  let topics := <[ topic := sub ]> (subTopics s) in
  match ExtractGossipDigest topic with
  | inl err => (mkSubTopicHandler topics (digestMap s), Some err)
  | inr digest =>
      (mkSubTopicHandler topics
         (<[ digest := wrap_int (default 0 (digestMap s !! digest) + 1) ]> (digestMap s)),
       None)
  end.

(** topicExists (lines 39-44). *)
Definition topicExists (s : subTopicHandler) (topic : string) : bool :=
  match subTopics s !! topic with
  | Some _ => true
  | None => false
  end.

(** removeTopic (lines 46-66). *)
Definition removeTopic (s : subTopicHandler) (topic : string)
  : subTopicHandler * option error :=
  let topics := delete topic (subTopics s) in
  match ExtractGossipDigest topic with
  | inl err => (mkSubTopicHandler topics (digestMap s), Some err)
  | inr digest =>
      match digestMap s !! digest with
      | None => (mkSubTopicHandler topics (delete digest (digestMap s)), None)
      | Some currAmt =>
          if currAmt <=? 0
          then (mkSubTopicHandler topics (delete digest (digestMap s)), None)
          else
            let digests := <[ digest := wrap_int (currAmt - 1) ]> (digestMap s) in
            if default 0 (digests !! digest) =? 0
            then (mkSubTopicHandler topics (delete digest digests), None)
            else (mkSubTopicHandler topics digests, None)
      end
  end.

(** digestExists (lines 68-74). *)
Definition digestExists (s : subTopicHandler) (digest : Z) : bool :=
  match digestMap s !! digest with
  | Some count => 0 <? count
  | None => false
  end.

(** allTopics (lines 76-85): the keys, in the order the range yields them. *)
Definition allTopics (s : subTopicHandler) : list string :=
  fold_left (fun topics kv => topics ++ [fst kv]) (map_to_list (subTopics s)) [].

(** subForTopic (lines 87-91): nil for a topic that is not there. *)
Definition subForTopic (s : subTopicHandler) (topic : string) : Z :=
  default 0 (subTopics s !! topic).

End SubTopics.

(** ** The lock per address (internal/api) *)

(** AddrLocker: the map of locks, nil until first used.  A mutex is a
    pointer; [al_next] is the next address new(sync.Mutex) hands out. *)
Record AddrLocker := mkAddrLocker {
  al_locks : option (gmap Address nat);
  al_next : nat }.

(** lock (lines 30-40): the mutex of the address, made on first use. *)
Definition AddrLocker_lock (l : AddrLocker) (address : Address) : nat * AddrLocker :=
  let locks := match al_locks l with
               | Some m => m
               | None => ∅
               end in
  match locks !! address with
  | Some mu => (mu, mkAddrLocker (Some locks) (al_next l))
  | None =>
      (al_next l, mkAddrLocker (Some (<[ address := al_next l ]> locks)) (S (al_next l)))
  end.

(** The map of locks, empty while it is nil. *)
Definition al_map (l : AddrLocker) : gmap Address nat :=
  match al_locks l with
  | Some m => m
  | None => ∅
  end.

(** Every mutex in the map was handed out before [al_next], and no two
    addresses hold the same one. *)
Definition AddrLocker_inv (l : AddrLocker) : Prop :=
  (forall a mu, al_map l !! a = Some mu -> (mu < al_next l)%nat)
  /\ (forall a b mu, al_map l !! a = Some mu -> al_map l !! b = Some mu -> a = b).

(** ** Access lists (the types file kept with common/big.go) *)

Record AccessTuple := mkAccessTuple {
  at_Address : Address;
  at_StorageKeys : list Hash }.

Definition AccessList := list AccessTuple.

(** AccessList.StorageKeys (lines 159-165); [sum] is a Go int. *)
Definition StorageKeys (al : AccessList) : Z :=
  fold_left (fun sum tuple => wrap_int (sum + Z.of_nat (length (at_StorageKeys tuple))))
            al 0.

(** AccessListTx (lines 168-178); a *big.Int or *Address is nil or a value. *)
Record AccessListTx := mkAccessListTx {
  altx_ChainID : option Z;
  altx_Nonce : Z;
  altx_GasPrice : option Z;
  altx_Gas : Z;
  altx_To : option Address;
  altx_Value : option Z;
  altx_Data : list Z;
  altx_AccessList : AccessList;
  altx_V : option Z;
  altx_R : option Z;
  altx_S : option Z }.

(** copyAddressPtr (lines 239-245). *)
Definition copyAddressPtr (a : option Address) : option Address :=
  match a with
  | None => None
  | Some a => Some a
  end.

(** new(big.Int), then Set when the source is not nil. *)
Definition copy_big (x : option Z) : option Z :=
  match x with
  | Some v => Some v
  | None => Some 0
  end.

(** AccessListTx.copy (lines 181-216). *)
Definition AccessListTx_copy (tx : AccessListTx) : AccessListTx :=
  mkAccessListTx (copy_big (altx_ChainID tx)) (altx_Nonce tx)
                 (copy_big (altx_GasPrice tx)) (altx_Gas tx)
                 (copyAddressPtr (altx_To tx)) (copy_big (altx_Value tx))
                 (altx_Data tx) (altx_AccessList tx)
                 (copy_big (altx_V tx)) (copy_big (altx_R tx)) (copy_big (altx_S tx)).

(** The accessors (lines 219-237). *)
Definition altx_gasPrice (tx : AccessListTx) : option Z := altx_GasPrice tx.
Definition altx_gasTipCap (tx : AccessListTx) : option Z := altx_GasPrice tx.
Definition altx_gasFeeCap (tx : AccessListTx) : option Z := altx_GasPrice tx.
Definition altx_rawSignatureValues (tx : AccessListTx)
  : option Z * option Z * option Z := (altx_V tx, altx_R tx, altx_S tx).
Definition altx_setSignatureValues (tx : AccessListTx) (chainID v r s : option Z)
  : AccessListTx :=
  mkAccessListTx chainID (altx_Nonce tx) (altx_GasPrice tx) (altx_Gas tx)
                 (altx_To tx) (altx_Value tx) (altx_Data tx) (altx_AccessList tx)
                 v r s.

(** ** The table of named databases (internal/amcdb/lmdb) *)

(** The part of Lmdb that openDBI uses: the handles by name, and how many
    times newDBI has been called. *)
Record Lmdb := mkLmdb {
  mDBI : gmap string Z;
  lmdb_opened : nat }.

Section OpenDBI.

(** newDBI, of the same package: the handle or the error of the n-th call. *)
Variable newDBI : nat -> string -> error + Z.

(** openDBI (lines 141-158). *)
Definition openDBI (m : Lmdb) (dbName : string) : (error + Z) * Lmdb :=
  match mDBI m !! dbName with
  | Some dbi => (inr dbi, m)
  | None =>
      match newDBI (lmdb_opened m) dbName with
      | inl err => (inl err, mkLmdb (mDBI m) (S (lmdb_opened m)))
      | inr dbi => (inr dbi, mkLmdb (<[ dbName := dbi ]> (mDBI m)) (S (lmdb_opened m)))
      end
  end.

(** OpenReader, OpenWriter, Open (lines 122-132). *)
Definition OpenReader := openDBI.
Definition OpenWriter := openDBI.
Definition Open := openDBI.

End OpenDBI.

(** ** FinalizeBlockExecution (internal) *)

(** What the engine and the state writer answer, and what gets called. *)
Record finalize_collab := mkFinalizeCollab {
  fc_FinalizeAndAssemble : error + Block;
  fc_Finalize : option error;
  fc_CommitBlock : option error;
  fc_WriteChangeSets : option error;
  fc_WriteHistory : option error }.

Inductive finalize_call : Type :=
| FcFinalizeAndAssemble
| FcFinalize
| FcCommitBlock
| FcWriteChangeSets
| FcWriteHistory.

(** FinalizeBlockExecution (lines 506-535).  The results [newTxs] and
    [newReceipt] are named results that nothing assigns. *)
Definition FinalizeBlockExecution (c : finalize_collab) (isMining : bool)
  : (error + (option Block * list Transaction * list Receipt)) * list finalize_call :=
  let '(newBlock, err, calls) :=
    if isMining then
      match fc_FinalizeAndAssemble c with
      | inl e => (None, Some e, [FcFinalizeAndAssemble])
      | inr b => (Some b, None, [FcFinalizeAndAssemble])
      end
    else (None, fc_Finalize c, [FcFinalize]) in
  match err with
  | Some e => (inl e, calls)
  | None =>
      match fc_CommitBlock c with
      | Some e => (inl (ErrWrap "committing block failed" e), calls ++ [FcCommitBlock])
      | None =>
          match fc_WriteChangeSets c with
          | Some e =>
              (inl (ErrWrap "writing changesets for block failed" e),
               calls ++ [FcCommitBlock; FcWriteChangeSets])
          | None =>
              match fc_WriteHistory c with
              | Some e =>
                  (inl (ErrWrap "writing history for block failed" e),
                   calls ++ [FcCommitBlock; FcWriteChangeSets; FcWriteHistory])
              | None =>
                  (inr (newBlock, [], []),
                   calls ++ [FcCommitBlock; FcWriteChangeSets; FcWriteHistory])
              end
          end
      end
  end.

(** ** A concrete instance

    A small state-transition function over an integer state, used to run the
    definitions on concrete inputs.  A transaction with a negative payload
    has a stale nonce; otherwise the payload is the gas the transaction
    uses.  A failing application leaves the state and the pool dirty, so
    that the rollback of miningCommitTx is visible. *)
Definition demo_apply (coinbase : Address) (gp : GasPool)
           (ibs : @IntraBlockState Z) (h : Header) (tx : Transaction)
  : @ApplyOutcome Z :=
  let g := Z.to_N (tx_Payload tx) in
  if tx_Payload tx <? 0 then
    mkApplyOutcome (ibs_world ibs + 1000) (gp - 1)%N (hdr_GasUsed h)
                   (inl (ErrWrap "nonce too low: address 0x01" ErrNonceTooLow))
  else if (gp <? g)%N then
    mkApplyOutcome (ibs_world ibs + 1000) 0%N (hdr_GasUsed h)
                   (inl ErrGasLimitReached)
  else
    mkApplyOutcome (ibs_world ibs + tx_Payload tx) (gp - g)%N (hdr_GasUsed h + g)%N
                   (inr (mkReceipt g [mkLog (tx_Hash tx) 0] 0 0 0)).

Definition demo_header : Header := mkHeader 10 77 5 100000%N 0%N 1700000000 0 0.
Definition demo_env : environment := makeEnv [8; 9] demo_header 77.
Definition demo_ibs : @IntraBlockState Z := mkIBS 0 [] 0 0 0.
Definition demo_tx1 : Transaction := mkTransaction 101 21000.
Definition demo_tx2 : Transaction := mkTransaction 102 (-1).
Definition demo_tx3 : Transaction := mkTransaction 103 30000.

(** A worker that is running, with two pending tasks: one for block 1
    under seal hash 11, one for block 100 under seal hash 22. *)
Definition demo_block (number : Z) (hash : Hash) : Block :=
  mkBlock (mkHeader 0 77 number 100000%N 0%N 1700000000 0 0) hash [] 1.
Definition demo_task (number : Z) (hash : Hash) : @task Z :=
  mkTask [mkReceipt 21000%N [mkLog 5 0] 0 0 0] demo_ibs (demo_block number hash) 0 [].
Definition demo_pending : gmap Hash (@task Z) :=
  <[ 11 := demo_task 1 1001 ]> (<[ 22 := demo_task 100 1100 ]> ∅).
Definition demo_worker : @worker Z := mkWorker 77 demo_pending 1 None [].

(** A chain store that keeps the (hash, number) pairs written to it, and an
    engine whose seal hash of a header is read off its number. *)
Definition demo_chain := list (Hash * Z).
Definition demo_result_collab : @result_collab Z demo_chain :=
  @mkResultCollab Z demo_chain
    (fun chain h n => existsb (fun p => (fst p =? h) && (snd p =? n)) chain)
    (fun chain b _ _ _ => ((blk_Hash b, Uint64 (Number64 b)) :: chain, None))
    (fun chain _ => (chain, None))
    (fun h => if hdr_Number h =? 100 then 22 else 11).

(** The collaborators of one build cycle: a pool with the three
    transactions above, an engine that assembles what it is given. *)
Definition demo_build_collab : @build_collab Z :=
  @mkBuildCollab Z 21000%N demo_apply
    (mkHeader 9 77 4 100000%N 0%N 1600000000 0 0)
    (fun _ => None) (fun _ _ => [8; 9]) (fun h => hdr_Number h + 1000)
    (fun parentGasLimit _ => parentGasLimit) 30000000%N 2%N
    (fun _ => false) (fun _ => false) (fun _ => 0)
    (fun h => inr h)
    (fun h ibs txs _ => inr (mkBlock h 555 txs 1, [], [], ibs_world ibs))
    None 0
    (inr [demo_tx1; demo_tx2; demo_tx3])
    (fun tx => inr [tx_Payload tx])
    (fun h txs _ _ => mkBlock h 0 txs 0)
    None 1700000001.

(** A new head arrives while the second candidate is being looked at. *)
Definition demo_new_head_flag : interrupt_flag :=
  Some (fun k => if (k <? 1)%nat then commitInterruptNone else commitInterruptNewHead).


(** An engine for taskLoop whose sealing fails for want of signatures on
    the blocks numbered 100. *)
Definition demo_seal_collab : seal_collab :=
  mkSealCollab (fun h => if hdr_Number h =? 100 then 22 else 11)
               (fun b => if Number64 b =? 100
                         then Some (ErrWrap "seal" (ErrNew "not enough sign"))
                         else None)
               (ErrNew "not enough sign") false.

(** A digest extraction that reads the digest off the length of the topic
    and fails on the empty topic. *)
Definition demo_extract (topic : string) : error + Z :=
  if String.eqb topic "" then inl (ErrNew "invalid topic")
  else inr (Z.of_nat (String.length topic)).

(** A newDBI that fails on the first call and hands out 100 + n on the
    n-th one after that. *)
Definition demo_newDBI (n : nat) (name : string) : error + Z :=
  match n with
  | O => inl (ErrNew "cannot open")
  | S _ => inr (100 + Z.of_nat n)
  end.

(** The same build cycle with a pool that has nothing to offer. *)
Definition demo_empty_pool_collab : @build_collab Z :=
  @mkBuildCollab Z 21000%N demo_apply
    (mkHeader 9 77 4 100000%N 0%N 1600000000 0 0)
    (fun _ => None) (fun _ _ => [8; 9]) (fun h => hdr_Number h + 1000)
    (fun parentGasLimit _ => parentGasLimit) 30000000%N 2%N
    (fun _ => false) (fun _ => false) (fun _ => 0)
    (fun h => inr h)
    (fun h ibs txs _ => inr (mkBlock h 555 txs 1, [], [], ibs_world ibs))
    None 0
    (inr [])
    (fun tx => inr [tx_Payload tx])
    (fun h txs _ _ => mkBlock h 0 txs 0)
    None 1700000001.

(** * Assembly: what fillTransactions guarantees *)

Section AssemblyFacts.

Context {World : Type}.
Variable TxGas : N.
Variable Apply :
  Address -> GasPool -> @IntraBlockState World -> Header -> Transaction
  -> @ApplyOutcome World.

Local Abbreviation commitTx := (miningCommitTx Apply).
Local Abbreviation body := (fill_body TxGas Apply).
Local Abbreviation loop := (fill_loop TxGas Apply).

Lemma nth_error_snoc {A} (l : list A) (a : A) :
  nth_error (l ++ [a]) (length l) = Some a.
Proof. induction l; simpl; auto. Qed.

Lemma firstn_snoc {A} (l : list A) (a : A) :
  firstn (length l) (l ++ [a]) = l.
Proof. induction l; simpl; f_equal; auto. Qed.

(** Reverting to a snapshot that was just taken gives back the journaled
    state and the revisions, whatever was written to the state meanwhile. *)
Lemma revert_after_snapshot (s : @IntraBlockState World) (w : World) :
  RevertToSnapshot (ibs_set_world (snd (Snapshot s)) w) (fst (Snapshot s))
  = s.
Proof.
  destruct s as [w0 revs th bh ti].
  unfold RevertToSnapshot, Snapshot, ibs_set_world; simpl.
  rewrite nth_error_snoc, firstn_snoc. reflexivity.
Qed.

(** miningCommitTx when the application fails. *)
Lemma commitTx_failure txn ibs env err :
  ao_result (attempt Apply txn ibs env) = inl err ->
  commitTx txn (env_coinbase env) ibs env
  = (inl err,
     env_set_gasPool
       (env_set_header (env_set_gasPool env (ao_gasPool (attempt Apply txn ibs env)))
                       (hdr_set_GasUsed (env_header env)
                                        (ao_usedGas (attempt Apply txn ibs env))))
       (Gas (env_gasPool env)),
     Prepare ibs (tx_Hash txn) 0 (env_tcount env)).
Proof.
  intros H. unfold miningCommitTx, attempt in *.
  set (p := Prepare ibs (tx_Hash txn) 0 (env_tcount env)) in *.
  pose proof (revert_after_snapshot p) as R.
  destruct (Snapshot p) as [snap s1] eqn:E. simpl in *.
  rewrite H. rewrite R. reflexivity.
Qed.

(** miningCommitTx when the application succeeds. *)
Lemma commitTx_success txn ibs env receipt :
  ao_result (attempt Apply txn ibs env) = inr receipt ->
  exists env' ibs',
    commitTx txn (env_coinbase env) ibs env = (inr (receipt_Logs receipt), env', ibs')
    /\ env_txs env' = env_txs env ++ [txn]
    /\ env_receipts env' = env_receipts env ++ [receipt]
    /\ env_gasPool env' = ao_gasPool (attempt Apply txn ibs env)
    /\ env_tcount env' = env_tcount env
    /\ env_coinbase env' = env_coinbase env
    /\ hdr_GasLimit (env_header env') = hdr_GasLimit (env_header env).
Proof.
  intros H. unfold miningCommitTx, attempt in *.
  destruct (Snapshot (Prepare ibs (tx_Hash txn) 0 (env_tcount env))) as [snap s1].
  simpl in *. rewrite H. eexists _, _. repeat split.
Qed.

(** The body of the loop, case by case. *)
Lemma body_interrupted interrupt k tx env ibs :
  signal_at interrupt k <> commitInterruptNone ->
  body interrupt k tx env ibs = Return (signalToErr (signal_at interrupt k)).
Proof.
  intros H. unfold fill_body.
  destruct (Z.eqb_spec (signal_at interrupt k) commitInterruptNone); [contradiction|].
  reflexivity.
Qed.

Lemma body_no_gas interrupt k tx env ibs :
  signal_at interrupt k = commitInterruptNone ->
  (Gas (env_gasPool env) < TxGas)%N ->
  body interrupt k tx env ibs = Break.
Proof.
  intros H G. unfold fill_body. rewrite H. simpl.
  apply N.ltb_lt in G. rewrite G. reflexivity.
Qed.

Lemma body_attempt interrupt k tx env ibs :
  signal_at interrupt k = commitInterruptNone ->
  (TxGas <= Gas (env_gasPool env))%N ->
  body interrupt k tx env ibs
  = let '(res, env', ibs') := commitTx tx (env_coinbase env) ibs env in
    match res with
    | inl err =>
        Continue env' ibs'
          (if errors_Is err ErrGasLimitReached || errors_Is err ErrNonceTooHigh
              || errors_Is err ErrNonceTooLow then None else Some err)
    | inr _ =>
        Continue (env_set_tcount env' (wrap_int (env_tcount env' + 1))) ibs' None
    end.
Proof.
  intros H G. unfold fill_body. rewrite H. simpl.
  apply N.ltb_ge in G. rewrite G.
  destruct (commitTx tx (env_coinbase env) ibs env) as [[res env'] ibs'].
  destruct res as [err|]; [|reflexivity].
  destruct (errors_Is err ErrGasLimitReached); [reflexivity|].
  destruct (errors_Is err ErrNonceTooHigh); [reflexivity|].
  destruct (errors_Is err ErrNonceTooLow); reflexivity.
Qed.

(** A failing candidate: the loop goes on with the next one, from a context
    that differs from the previous one only in the header's gas counter. *)
Lemma body_failure interrupt k tx env ibs err :
  signal_at interrupt k = commitInterruptNone ->
  (TxGas <= Gas (env_gasPool env))%N ->
  ao_result (attempt Apply tx ibs env) = inl err ->
  exists env',
    body interrupt k tx env ibs
    = Continue env' (Prepare ibs (tx_Hash tx) 0 (env_tcount env))
               (if errors_Is err ErrGasLimitReached || errors_Is err ErrNonceTooHigh
                   || errors_Is err ErrNonceTooLow then None else Some err)
    /\ env_txs env' = env_txs env
    /\ env_receipts env' = env_receipts env
    /\ env_gasPool env' = env_gasPool env
    /\ env_tcount env' = env_tcount env
    /\ env_coinbase env' = env_coinbase env
    /\ hdr_GasLimit (env_header env') = hdr_GasLimit (env_header env).
Proof.
  intros H G F. rewrite body_attempt by assumption.
  rewrite (commitTx_failure _ _ _ _ F). eexists. repeat split.
Qed.

(** An accepted candidate. *)
Lemma body_success interrupt k tx env ibs receipt :
  signal_at interrupt k = commitInterruptNone ->
  (TxGas <= Gas (env_gasPool env))%N ->
  ao_result (attempt Apply tx ibs env) = inr receipt ->
  exists env' ibs',
    body interrupt k tx env ibs = Continue env' ibs' None
    /\ env_txs env' = env_txs env ++ [tx]
    /\ env_receipts env' = env_receipts env ++ [receipt]
    /\ env_gasPool env' = ao_gasPool (attempt Apply tx ibs env)
    /\ env_tcount env' = wrap_int (env_tcount env + 1)
    /\ env_coinbase env' = env_coinbase env
    /\ hdr_GasLimit (env_header env') = hdr_GasLimit (env_header env).
Proof.
  intros H G S. rewrite body_attempt by assumption.
  destruct (commitTx_success _ _ _ _ S) as (env' & ibs' & E & T & R & P & C & B & L).
  rewrite E. eexists _, _. split; [reflexivity|].
  simpl. rewrite C. repeat split; assumption.
Qed.

(** Every way the body can end. *)
Lemma body_cases interrupt k tx env ibs :
  body interrupt k tx env ibs = Return (signalToErr (signal_at interrupt k))
  \/ body interrupt k tx env ibs = Break
  \/ (exists env' ibs' l,
        body interrupt k tx env ibs = Continue env' ibs' l
        /\ env_txs env' = env_txs env
        /\ env_receipts env' = env_receipts env
        /\ env_gasPool env' = env_gasPool env
        /\ hdr_GasLimit (env_header env') = hdr_GasLimit (env_header env))
  \/ (exists env' ibs' receipt,
        body interrupt k tx env ibs = Continue env' ibs' None
        /\ ao_result (attempt Apply tx ibs env) = inr receipt
        /\ env_txs env' = env_txs env ++ [tx]
        /\ env_receipts env' = env_receipts env ++ [receipt]
        /\ env_gasPool env' = ao_gasPool (attempt Apply tx ibs env)
        /\ hdr_GasLimit (env_header env') = hdr_GasLimit (env_header env)).
Proof.
  destruct (Z.eq_dec (signal_at interrupt k) commitInterruptNone) as [H|H].
  2: { left. apply body_interrupted; assumption. }
  destruct (N.lt_ge_cases (Gas (env_gasPool env)) TxGas) as [G|G].
  { right; left. apply body_no_gas; assumption. }
  destruct (ao_result (attempt Apply tx ibs env)) as [err|receipt] eqn:R.
  - right; right; left.
    destruct (body_failure interrupt k tx env ibs err H G R)
      as (env' & E & T & Rc & P & _ & _ & L).
    exists env', (Prepare ibs (tx_Hash tx) 0 (env_tcount env)). eexists.
    exact (conj E (conj T (conj Rc (conj P L)))).
  - right; right; right.
    destruct (body_success interrupt k tx env ibs receipt H G R)
      as (env' & ibs' & E & T & Rc & P & _ & _ & L).
    exists env', ibs', receipt.
    exact (conj E (conj eq_refl (conj T (conj Rc (conj P L))))).
Qed.

(** A property of the context that every completed iteration preserves
    holds all along the loop and in the context it returns. *)
Lemma loop_preserves (P : environment -> Prop) interrupt :
  (forall k tx env ibs env' ibs' l,
      P env -> body interrupt k tx env ibs = Continue env' ibs' l -> P env') ->
  forall cands k env ibs,
    P env ->
    P (fr_env (loop interrupt k cands env ibs))
    /\ Forall P (fill_trace TxGas Apply interrupt k cands env ibs).
Proof.
  intros Hstep cands.
  induction cands as [|tx rest IH]; intros k env ibs HP; simpl.
  - split; [assumption | constructor].
  - destruct (body interrupt k tx env ibs) as [env' ibs' l| |r] eqn:E; simpl.
    + pose proof (Hstep _ _ _ _ _ _ _ HP E) as HP'.
      destruct (IH (S k) env' ibs' HP') as [F T].
      split; [assumption | constructor; assumption].
    + split; [assumption | constructor].
    + split; [assumption | constructor].
Qed.

Lemma sum_gasUsed_snoc rs r :
  sum_gasUsed (rs ++ [r]) = (sum_gasUsed rs + receipt_GasUsed r)%N.
Proof.
  induction rs as [|a rs IH]; simpl.
  - lia.
  - unfold sum_gasUsed in *. simpl. rewrite IH. lia.
Qed.

(** The fields of a context that makeEnv has just built. *)
Lemma makeEnv_fields blocks header coinbase :
  env_txs (makeEnv blocks header coinbase) = []
  /\ env_receipts (makeEnv blocks header coinbase) = []
  /\ env_gasPool (makeEnv blocks header coinbase) = hdr_GasLimit header
  /\ env_header (makeEnv blocks header coinbase) = header
  /\ env_coinbase (makeEnv blocks header coinbase) = coinbase
  /\ env_tcount (makeEnv blocks header coinbase) = 0.
Proof.
  unfold makeEnv.
  set (e0 := env_set_gasPool _ _).
  assert (H0 : env_txs e0 = [] /\ env_receipts e0 = []
               /\ env_gasPool e0 = hdr_GasLimit header /\ env_header e0 = header
               /\ env_coinbase e0 = coinbase /\ env_tcount e0 = 0)
    by (repeat split).
  clearbody e0. revert e0 H0.
  induction blocks as [|b bs IH]; intros e0 H0; simpl; [assumption|].
  apply IH. simpl. assumption.
Qed.

(** C2: when the application of a candidate fails, with any error,
    miningCommitTx returns that error, the gas pool holds what it held
    before the attempt, the intra-block state is the one the snapshot
    recorded, and neither the transaction nor a receipt has been appended
    to the context. *)
Theorem miningCommitTx_restores_on_failure txn ibs env err :
  ao_result (attempt Apply txn ibs env) = inl err ->
  exists env' ibs',
    commitTx txn (env_coinbase env) ibs env = (inl err, env', ibs')
    /\ Gas (env_gasPool env') = Gas (env_gasPool env)
    /\ ibs_world ibs' = ibs_world ibs
    /\ ibs_revisions ibs' = ibs_revisions ibs
    /\ env_txs env' = env_txs env
    /\ env_receipts env' = env_receipts env.
Proof.
  intros H. rewrite (commitTx_failure _ _ _ _ H).
  eexists _, _. split; [reflexivity|]. repeat split.
Qed.

(** C3: a candidate whose application fails, with a recoverable error or any
    other, is skipped: the loop goes on with the next candidate from a
    context with the same transactions, receipts, gas and count.  And when
    the pool supplies three transactions of which only the second fails,
    with nonce-too-low, fillTransactions returns nil and the context holds
    the first and the third, in that order. *)
Theorem fillTransactions_skips_failing_candidate :
  (forall interrupt k tx rest env ibs err,
      signal_at interrupt k = commitInterruptNone ->
      (TxGas <= Gas (env_gasPool env))%N ->
      ao_result (attempt Apply tx ibs env) = inl err ->
      exists env' ibs' l,
        loop interrupt k (tx :: rest) env ibs
        = log_cons l (loop interrupt (S k) rest env' ibs')
        /\ env_txs env' = env_txs env
        /\ env_receipts env' = env_receipts env
        /\ env_gasPool env' = env_gasPool env
        /\ env_tcount env' = env_tcount env
        /\ ibs_world ibs' = ibs_world ibs)
  /\ (forall interrupt t1 t2 t3 env ibs l1 env1 ibs1 err env2 ibs2 l3 env3 ibs3,
         (forall k, (k < 3)%nat -> signal_at interrupt k = commitInterruptNone) ->
         let env0 := env_set_txs env [] in
         let accepted e := env_set_tcount e (wrap_int (env_tcount e + 1)) in
         commitTx t1 (env_coinbase env0) ibs env0 = (inr l1, env1, ibs1) ->
         commitTx t2 (env_coinbase (accepted env1)) ibs1 (accepted env1)
         = (inl err, env2, ibs2) ->
         errors_Is err ErrNonceTooLow = true ->
         commitTx t3 (env_coinbase env2) ibs2 env2 = (inr l3, env3, ibs3) ->
         (TxGas <= Gas (env_gasPool env0))%N ->
         (TxGas <= Gas (env_gasPool env1))%N ->
         let fr := fillTransactions TxGas Apply (inr [t1; t2; t3]) interrupt env ibs in
         fr_ret fr = Ok None
         /\ fr_env fr = accepted env3
         /\ env_txs (fr_env fr) = [t1; t3]).
Proof.
  split.
  - intros interrupt k tx rest env ibs err H G F.
    destruct (body_failure interrupt k tx env ibs err H G F)
      as (env' & E & T & R & P & C & _ & _).
    simpl. rewrite E.
    eexists env', _, _. split; [reflexivity|].
    repeat split; assumption.
  - intros interrupt t1 t2 t3 env ibs l1 env1 ibs1 err env2 ibs2 l3 env3 ibs3
           Hsig env0 accepted C1 C2 Hlow C3 G0 G1 fr.
    assert (A1 : exists r1, ao_result (attempt Apply t1 ibs env0) = inr r1).
    { destruct (ao_result (attempt Apply t1 ibs env0)) as [e|r] eqn:A; [|eauto].
      rewrite (commitTx_failure _ _ _ _ A) in C1. discriminate. }
    destruct A1 as [r1 A1].
    destruct (commitTx_success _ _ _ _ A1) as (e1 & s1 & E1 & T1 & _ & _ & _ & _ & _).
    rewrite C1 in E1. injection E1 as _ <- <-.
    assert (A2 : ao_result (attempt Apply t2 ibs1 (accepted env1)) = inl err).
    { destruct (ao_result (attempt Apply t2 ibs1 (accepted env1))) as [e|r] eqn:A.
      - rewrite (commitTx_failure _ _ _ _ A) in C2. congruence.
      - destruct (commitTx_success _ _ _ _ A) as (e2 & s2 & E2 & _).
        rewrite C2 in E2. discriminate. }
    pose proof (commitTx_failure _ _ _ _ A2) as E2. rewrite C2 in E2.
    injection E2 as E2e E2s.
    assert (T2 : env_txs env2 = [t1]).
    { rewrite E2e. simpl. rewrite T1. reflexivity. }
    assert (G2 : (TxGas <= Gas (env_gasPool env2))%N).
    { rewrite E2e. simpl. exact G1. }
    assert (A3 : exists r3, ao_result (attempt Apply t3 ibs2 env2) = inr r3).
    { destruct (ao_result (attempt Apply t3 ibs2 env2)) as [e|r] eqn:A; [|eauto].
      rewrite (commitTx_failure _ _ _ _ A) in C3. discriminate. }
    destruct A3 as [r3 A3].
    destruct (commitTx_success _ _ _ _ A3) as (e3 & s3 & E3 & T3 & _).
    rewrite C3 in E3. injection E3 as _ <- <-.
    assert (B1 : body interrupt 0 t1 env0 ibs = Continue (accepted env1) ibs1 None).
    { rewrite body_attempt by (auto using Hsig with lia). rewrite C1. reflexivity. }
    assert (B2 : body interrupt 1 t2 (accepted env1) ibs1 = Continue env2 ibs2 None).
    { rewrite body_attempt by (auto using Hsig with lia). rewrite C2.
      rewrite Hlow. rewrite !orb_true_r. reflexivity. }
    assert (B3 : body interrupt 2 t3 env2 ibs2 = Continue (accepted env3) ibs3 None).
    { rewrite body_attempt by (auto using Hsig with lia). rewrite C3. reflexivity. }
    subst fr. unfold fillTransactions. fold env0. simpl.
    rewrite B1, B2, B3. simpl.
    repeat split. rewrite T3, T2. reflexivity.
Qed.

(** C4: when the state-transition function debits from the pool the gas
    each accepted receipt reports, and so fails when the pool holds less,
    the receipts of a context built by makeEnv and filled by
    fillTransactions never use more gas than the header's limit. *)
Theorem fillTransactions_within_gas_limit :
  (forall cb gp s h tx r,
      ao_result (Apply cb gp s h tx) = inr r ->
      (receipt_GasUsed r <= Gas gp)%N
      /\ Gas (ao_gasPool (Apply cb gp s h tx)) = (Gas gp - receipt_GasUsed r)%N) ->
  forall blocks header coinbase pool interrupt ibs,
    (sum_gasUsed
       (env_receipts
          (fr_env (fillTransactions TxGas Apply pool interrupt
                                    (makeEnv blocks header coinbase) ibs)))
     <= hdr_GasLimit header)%N.
Proof.
  intros Hdebit blocks header coinbase pool interrupt ibs.
  destruct (makeEnv_fields blocks header coinbase) as (_ & R & P & Hh & _ & _).
  set (env := makeEnv blocks header coinbase) in *.
  set (inv := fun e : environment =>
                (sum_gasUsed (env_receipts e) + Gas (env_gasPool e))%N
                = hdr_GasLimit header).
  assert (I0 : inv (env_set_txs env [])).
  { unfold inv. simpl. rewrite R, P. reflexivity. }
  assert (I : inv (fr_env (fillTransactions TxGas Apply pool interrupt env ibs))).
  { unfold fillTransactions. destruct pool as [e|cands]; [exact I0|].
    apply (loop_preserves inv interrupt); [|exact I0].
    intros k tx e s e' s' l He Hb. unfold inv in *.
    destruct (body_cases interrupt k tx e s)
      as [B|[B|[(e1 & s1 & l1 & B & _ & R1 & P1 & _)
               |(e1 & s1 & r & B & A & _ & R1 & P1 & _)]]];
      rewrite B in Hb; try discriminate; injection Hb as <- <- <-.
    - rewrite R1, P1. exact He.
    - destruct (Hdebit _ _ _ _ _ _ A) as [Hle Hgp].
      rewrite R1, P1, sum_gasUsed_snoc.
      unfold attempt in *. rewrite Hgp. lia. }
  unfold inv in I. unfold Gas in I. lia.
Qed.



End AssemblyFacts.

(** * The worker: pending tasks, results, build cycles *)

Section WorkerFacts.

Context {World : Type}.

Local Abbreviation task' := (@task World).

(** The range of clearPending, entry by entry: a key is deleted as soon as
    one of the visited pairs carries it with a task the test selects. *)
Lemma clearPending_fold number (l : list (Hash * task')) (acc : gmap Hash task') h :
  fold_left (fun m ht => if clearPending_test number (snd ht)
                         then delete (fst ht) m else m) l acc !! h
  = if existsb (fun ht => bool_decide (fst ht = h) && clearPending_test number (snd ht)) l
    then None else acc !! h.
Proof.
  revert acc. induction l as [|[k t] l IH]; intros acc; simpl; [reflexivity|].
  rewrite IH. destruct (clearPending_test number t); simpl.
  - case_bool_decide as E; simpl.
    + subst. rewrite lookup_delete_eq. destruct (existsb _ l); reflexivity.
    + rewrite lookup_delete_ne by assumption. reflexivity.
  - rewrite andb_false_r. reflexivity.
Qed.

(** What clearPending leaves of the table. *)
Lemma clearPending_lookup number (m : gmap Hash task') h :
  clearPending number m !! h
  = match m !! h with
    | Some t => if clearPending_test number t then None else Some t
    | None => None
    end.
Proof.
  unfold clearPending. rewrite clearPending_fold.
  destruct (existsb _ (map_to_list m)) eqn:E.
  - apply existsb_exists in E. destruct E as ([k t] & Hin & Ht). simpl in Ht.
    apply andb_true_iff in Ht. destruct Ht as [Hk Ht].
    apply bool_decide_eq_true in Hk. subst k.
    apply list_elem_of_In, elem_of_map_to_list in Hin.
    rewrite Hin, Ht. reflexivity.
  - destruct (m !! h) as [t|] eqn:L; [|reflexivity].
    destruct (clearPending_test number t) eqn:Ht; [|reflexivity].
    exfalso. apply not_true_iff_false in E. apply E.
    apply existsb_exists. exists (h, t). split.
    + apply list_elem_of_In, elem_of_map_to_list. exact L.
    + simpl. rewrite Ht. rewrite bool_decide_eq_true_2 by reflexivity. reflexivity.
Qed.

(** The test of clearPending selects the tasks at most staleThreshold
    blocks behind [number], and every task ahead of it. *)
Lemma clearPending_test_spec number (t : task') :
  clearPending_test number t = true
  <-> number <= Uint256 (Number64 (task_block t) + staleThreshold).
Proof.
  unfold clearPending_test, uint256_Cmp, uint256_Add.
  destruct (Z.compare_spec number (Uint256 (Number64 (task_block t) + staleThreshold)));
    rewrite Z.ltb_lt; lia.
Qed.

(** *** The result handler *)

Lemma count_writes_app (a b : list (@event World)) :
  count_writes (a ++ b) = (count_writes a + count_writes b)%nat.
Proof. unfold count_writes. rewrite List.filter_app, length_app. reflexivity. Qed.

(** C9: a delivery of nil changes nothing, and neither does a delivery of
    a block the chain store already has by hash and number: the handler
    leaves before it stamps a receipt or calls WriteBlockWithState.  So
    when a first delivery writes the block, and the chain store then has
    what was written to it, a second delivery of the same block writes
    nothing: one write for the two. *)
Theorem resultLoop_writes_once {Chain : Type} (c : @result_collab World Chain) :
  (forall chain b rs s n chain',
      WriteBlockWithState c chain b rs s n = (chain', None) ->
      HasBlock c chain' (blk_Hash b) (Uint64 (Number64 b)) = true) ->
  (forall chain b chain' e h n,
      SealedBlock c chain b = (chain', e) ->
      HasBlock c chain h n = true -> HasBlock c chain' h n = true) ->
  (forall w chain, resultLoop_step c w chain None = (chain, []))
  /\ (forall w chain blk,
         HasBlock c chain (blk_Hash blk) (Uint64 (Number64 blk)) = true ->
         resultLoop_step c w chain (Some blk) = (chain, []))
  /\ (forall w w' chain blk t chain',
         HasBlock c chain (blk_Hash blk) (Uint64 (Number64 blk)) = false ->
         w_pendingTasks w !! SealHash c (blk_Header blk) = Some t ->
         WriteBlockWithState c chain blk
           (stamp_receipts (blk_Hash blk) (Number64 blk) (task_receipts t))
           (task_state t) (task_nopay t) = (chain', None) ->
         let first := resultLoop_step c w chain (Some blk) in
         let second := resultLoop_step c w' (fst first) (Some blk) in
         count_writes (snd first) = 1%nat
         /\ second = (fst first, [])
         /\ count_writes (snd first ++ snd second) = 1%nat).
Proof.
  intros Hwrite Hsealed.
  assert (Hdup : forall w chain blk,
             HasBlock c chain (blk_Hash blk) (Uint64 (Number64 blk)) = true ->
             resultLoop_step c w chain (Some blk) = (chain, [])).
  { intros w chain blk H. unfold resultLoop_step. rewrite H. reflexivity. }
  split; [reflexivity|]. split; [exact Hdup|].
  intros w w' chain blk t chain' Hnot Hlook Hw first second.
  assert (F : count_writes (snd first) = 1%nat
              /\ HasBlock c (fst first) (blk_Hash blk) (Uint64 (Number64 blk)) = true).
  { subst first. unfold resultLoop_step. rewrite Hnot, Hlook, Hw.
    pose proof (Hwrite _ _ _ _ _ _ Hw) as Hhas.
    destruct (SealedBlock c chain' blk) as [chain'' e] eqn:S.
    pose proof (Hsealed _ _ _ _ _ _ S Hhas) as Hhas'.
    set (logs := concat _).
    destruct e; simpl; (split; [|exact Hhas']);
      destruct (0 <? length logs)%nat; reflexivity. }
  destruct F as [F1 F2].
  assert (S2 : second = (fst first, [])) by (subst second; apply Hdup; exact F2).
  repeat split; [exact F1 | exact S2 |].
  rewrite S2, app_nil_r. exact F1.
Qed.

(** *** The build cycle *)

(** commit sends nothing on the resubmit-adjust channel. *)
Lemma commit_sends_no_adjust (c : @build_collab World) w env ibs a :
  ~ In (EvResubmitAdjust a) (cr_events (commit c w env ibs)).
Proof.
  unfold commit.
  destruct (isRunning w); [|simpl; tauto].
  destruct (FinalizeAndAssemble c _ _ _ _) as [e|[[[blk rw] unpay] world]];
    [simpl; tauto|].
  destruct (IsBeijing c _).
  - destruct (marshal_all c _); [|simpl; tauto].
    destruct (ctxDone c); simpl; intros H; intuition congruence.
  - destruct (ctxDone c); simpl; intros H; intuition congruence.
Qed.

(** Feedback is sent for a clean run and for a recommit interruption only. *)
Lemma feedback_none e current :
  errors_Is e errBlockInterruptedByRecommit = false ->
  @feedback World (Some e) current = [].
Proof. intros H. unfold feedback. rewrite H. reflexivity. Qed.

(** commitWork once the context is prepared and the state opened: the
    feedback for what fillTransactions returned, then commit on the context
    fillTransactions left. *)
Lemma commitWork_after_fill (c : @build_collab World) w interrupt noempty timestamp
      current err :
  (isRunning w && (w_coinbase w =? 0)) = false ->
  prepareWork c (mkGenerateParams (Uint64 timestamp) 0 (w_coinbase w) 0 false)
  = inr current ->
  BeginRo c = None ->
  let fr := fillTransactions (TxGas c) (ApplyTransaction c) (GetTransaction c)
                             interrupt current (mkIBS (initialWorld c) [] 0 0 0) in
  fr_ret fr = Ok err ->
  let r := commit c w (fr_env fr) (fr_ibs fr) in
  cr_ret (commitWork c w interrupt noempty timestamp) = cr_ret r
  /\ cr_worker (commitWork c w interrupt noempty timestamp) = cr_worker r
  /\ cr_events (commitWork c w interrupt noempty timestamp)
     = feedback err (fr_env fr) ++ cr_events r
       ++ match cr_ret r with
          | Ok (Some _) => [EvLogError "w.commit failed"]
          | _ => []
          end.
Proof.
  intros Hcb Hprep Hro fr Hfr r.
  unfold commitWork. rewrite Hcb, Hprep, Hro. fold fr. rewrite Hfr. fold r.
  destruct (cr_ret r) as [[e|]|m]; simpl; rewrite ?app_nil_r; auto.
Qed.




Lemma marshal_all_total (c : @build_collab World) txs :
  (forall tx, exists b, Marshal c tx = inr b) ->
  exists bs, marshal_all c txs = Ok bs.
Proof.
  intros H. induction txs as [|tx rest [bs IH]]; simpl; [eauto|].
  destruct (H tx) as [b ->]. rewrite IH. eauto.
Qed.

(** C10: when fillTransactions returns an error, from the pool or from an
    interruption, commitWork goes on to commit the context as it is: with
    the worker running, the engine assembling the block, marshalling
    working and the worker not shut down, it returns nil, the pending
    snapshot is the one of that context and the task built from it is sent
    for sealing.  Unless the error is the recommit interruption, nothing is
    sent to the interval controller, and that is the only difference: the
    result is the result of commit.  A failure of the pool is one such
    error, and leaves the context without transactions. *)
Theorem commitWork_commits_after_fill_error
        (c : @build_collab World) w interrupt noempty timestamp current e
        blk rewards unpay world :
  isRunning w = true ->
  w_coinbase w <> 0 ->
  prepareWork c (mkGenerateParams (Uint64 timestamp) 0 (w_coinbase w) 0 false)
  = inr current ->
  BeginRo c = None ->
  let fr := fillTransactions (TxGas c) (ApplyTransaction c) (GetTransaction c)
                             interrupt current (mkIBS (initialWorld c) [] 0 0 0) in
  fr_ret fr = Ok (Some e) ->
  let env := env_copy (fr_env fr) in
  FinalizeAndAssemble c (env_header env) (fr_ibs fr) (env_txs env) (env_receipts env)
  = inr (blk, rewards, unpay, world) ->
  (forall tx, exists b, Marshal c tx = inr b) ->
  ctxDone c = None ->
  let r := commitWork c w interrupt noempty timestamp in
  cr_ret r = Ok None
  /\ w_snapshotBlock (cr_worker r)
     = Some (NewBlockFromReceipt c (env_header env) (env_txs env)
                                 (env_receipts env) rewards)
  /\ w_snapshotReceipts (cr_worker r) = env_receipts env
  /\ In (EvTask (mkTask (env_receipts env) (ibs_set_world (fr_ibs fr) world)
                        blk (now c) unpay))
        (cr_events r)
  /\ (errors_Is e errBlockInterruptedByRecommit = false ->
      r = commit c w (fr_env fr) (fr_ibs fr)
      /\ forall a, ~ In (EvResubmitAdjust a) (cr_events r))
  /\ (forall e', GetTransaction c = inl e' -> e' = e /\ env_txs (fr_env fr) = []).
Proof.
  intros Hrun Hcb Hprep Hro fr Hfr env Hfin Hmar Hctx r.
  assert (Hpool : forall e', GetTransaction c = inl e' ->
                             e' = e /\ env_txs (fr_env fr) = []).
  { intros e' Hp. subst fr. unfold fillTransactions in *. rewrite Hp in *.
    simpl in *. split; congruence. }
  assert (Hcb' : (isRunning w && (w_coinbase w =? 0)) = false).
  { apply andb_false_iff. right. apply Z.eqb_neq. exact Hcb. }
  destruct (commitWork_after_fill c w interrupt noempty timestamp current (Some e)
                                  Hcb' Hprep Hro Hfr) as (Eret & Ew & Eev).
  fold fr r in Eret, Ew, Eev.
  destruct (marshal_all_total c (env_txs env) Hmar) as [bs Hbs].
  assert (C : exists evs,
             commit c w (fr_env fr) (fr_ibs fr)
             = mkCommitResult (Ok None) (updateSnapshot c w env rewards)
                 (evs ++ [EvTask (mkTask (env_receipts env)
                                         (ibs_set_world (fr_ibs fr) world)
                                         blk (now c) unpay)])).
  { unfold commit. rewrite Hrun. fold env. rewrite Hfin.
    destruct (IsBeijing c _); [rewrite Hbs|]; rewrite Hctx; eauto. }
  destruct C as [evs C]. rewrite C in Eret, Ew, Eev.
  cbn [cr_ret cr_worker cr_events] in Eret, Ew, Eev.
  rewrite app_nil_r in Eev.
  split; [exact Eret|]. rewrite Ew. simpl.
  split; [reflexivity|]. split; [reflexivity|].
  split; [|split; [|exact Hpool]].
  - rewrite Eev. apply in_or_app. right. apply in_or_app. right. left. reflexivity.
  - intros Hnot. rewrite (feedback_none _ _ Hnot) in Eev.
    rewrite app_nil_l in Eev.
    split.
    + rewrite C. destruct r as [rr rw re]. simpl in *. congruence.
    + intros a Hin. rewrite Eev in Hin.
      pose proof (commit_sends_no_adjust c w (fr_env fr) (fr_ibs fr) a) as N.
      rewrite C in N. exact (N Hin).
Qed.

End WorkerFacts.

(** * The interval controller: what recalcRecommit bounds *)

(** The binary digits of a mantissa. *)
Lemma digits2_pos_bounds m :
  2 ^ (Z.pos (digits2_pos m) - 1) <= Z.pos m < 2 ^ Z.pos (digits2_pos m).
Proof.
  induction m as [m IH|m IH|]; simpl digits2_pos.
  - rewrite Pos2Z.inj_succ.
    replace (Z.succ (Z.pos (digits2_pos m)) - 1) with (Z.succ (Z.pos (digits2_pos m) - 1)) by lia.
    rewrite !Z.pow_succ_r by lia. lia.
  - rewrite Pos2Z.inj_succ.
    replace (Z.succ (Z.pos (digits2_pos m)) - 1) with (Z.succ (Z.pos (digits2_pos m) - 1)) by lia.
    rewrite !Z.pow_succ_r by lia. lia.
  - simpl. lia.
Qed.

(** What validity gives on a binary64 mantissa. *)
Lemma bounded_mantissa m e :
  bounded prec emax m e = true ->
  emin <= e /\ Z.pos m < 2 ^ 53 /\ (emin < e -> 2 ^ 52 <= Z.pos m).
Proof.
  unfold bounded, canonical_mantissa, fexp. intros H.
  apply andb_true_iff in H. destruct H as [H _]. apply Z.eqb_eq in H.
  pose proof (digits2_pos_bounds m) as [Hlo Hhi].
  set (d := Z.pos (digits2_pos m)) in *.
  assert (Hd : 0 < d) by (unfold d; lia).
  change prec with 53 in *. change (SpecFloat.emin 53 emax) with (-1074) in *.
  change emin with (-1074).
  split; [lia|]. split.
  - assert (d <= 53) by lia.
    eapply Z.lt_le_trans; [exact Hhi|]. apply Z.pow_le_mono_r; lia.
  - intros He. assert (d = 53) by lia.
    replace 52 with (d - 1) by lia. exact Hlo.
Qed.

Lemma mag_trunc_scaled m e L :
  L <= 0 -> L <= e ->
  mag_trunc m e = (Z.pos m * 2 ^ (e - L)) / 2 ^ (- L).
Proof.
  intros HL He. unfold mag_trunc.
  destruct (Z.leb_spec 0 e).
  - replace (e - L) with (e + - L) by lia.
    rewrite Z.pow_add_r by lia. rewrite Z.mul_assoc.
    rewrite Z.div_mul; [reflexivity|]. apply Z.pow_nonzero; lia.
  - replace (- L) with ((e - L) + - e) by lia.
    rewrite Z.pow_add_r by lia.
    rewrite (Z.mul_comm (Z.pos m)).
    rewrite Z.div_mul_cancel_l; try (apply Z.pow_nonzero; lia). reflexivity.
Qed.

Lemma mag_trunc_nonneg m e : 0 <= mag_trunc m e.
Proof.
  unfold mag_trunc. destruct (Z.leb_spec 0 e).
  - apply Z.mul_nonneg_nonneg; [lia | apply Z.pow_nonneg; lia].
  - apply Z.div_pos; [lia | apply Z.pow_pos_nonneg; lia].
Qed.

Lemma mag_trunc_mono_exp m1 e1 m2 e2 :
  bounded prec emax m1 e1 = true -> bounded prec emax m2 e2 = true ->
  e1 < e2 -> mag_trunc m1 e1 <= mag_trunc m2 e2.
Proof.
  intros B1 B2 He.
  destruct (bounded_mantissa _ _ B1) as (E1 & M1 & _).
  destruct (bounded_mantissa _ _ B2) as (E2 & _ & M2).
  specialize (M2 ltac:(lia)).
  set (L := Z.min e1 0).
  rewrite (mag_trunc_scaled m1 e1 L), (mag_trunc_scaled m2 e2 L) by (unfold L; lia).
  apply Z.div_le_mono; [apply Z.pow_pos_nonneg; unfold L; lia|].
  replace (e2 - L) with ((e1 - L) + (e2 - e1)) by lia.
  rewrite Z.pow_add_r by (unfold L; lia).
  assert (P : 0 < 2 ^ (e1 - L)) by (apply Z.pow_pos_nonneg; unfold L; lia).
  assert (Q : 2 <= 2 ^ (e2 - e1)).
  { change 2 with (2 ^ 1) at 1. apply Z.pow_le_mono_r; lia. }
  apply Z.le_trans with (2 ^ 53 * 2 ^ (e1 - L)).
  - apply Z.mul_le_mono_nonneg_r; lia.
  - replace (Z.pos m2 * (2 ^ (e1 - L) * 2 ^ (e2 - e1)))
      with (Z.pos m2 * 2 ^ (e2 - e1) * 2 ^ (e1 - L)) by ring.
    apply Z.mul_le_mono_nonneg_r; [lia|].
    change (2 ^ 53) with (2 ^ 52 * 2).
    apply Z.mul_le_mono_nonneg; lia.
Qed.

Lemma mag_trunc_mono_mant m1 m2 e :
  (m1 <= m2)%positive -> mag_trunc m1 e <= mag_trunc m2 e.
Proof.
  intros H. unfold mag_trunc. destruct (Z.leb_spec 0 e).
  - apply Z.mul_le_mono_nonneg_r; [apply Z.pow_nonneg; lia | lia].
  - apply Z.div_le_mono; [apply Z.pow_pos_nonneg; lia | lia].
Qed.

(** Truncation follows the order of the floats. *)
Lemma SF_trunc_mono x y a b :
  valid_binary x = true -> valid_binary y = true ->
  SFltb x y = false ->
  SF_trunc x = Some a -> SF_trunc y = Some b ->
  b <= a.
Proof.
  intros Vx Vy Hlt Hx Hy.
  destruct x as [sx|sx| |sx mx ex]; try discriminate;
    destruct y as [sy|sy| |sy my ey]; try discriminate;
    simpl in Hx, Hy; injection Hx as <-; injection Hy as <-.
  - lia.
  - unfold SFltb in Hlt. simpl in Hlt. destruct sy; [|discriminate].
    pose proof (mag_trunc_nonneg my ey). lia.
  - unfold SFltb in Hlt. simpl in Hlt. destruct sx; [discriminate|].
    apply mag_trunc_nonneg.
  - simpl in Vx, Vy. unfold SFltb in Hlt. simpl in Hlt.
    pose proof (mag_trunc_nonneg mx ex). pose proof (mag_trunc_nonneg my ey).
    destruct sx, sy; try discriminate; try lia.
    + destruct (Z.compare_spec ex ey) as [E|E|E]; try discriminate.
      * subst. rewrite Pos.compare_cont_spec in Hlt. simpl in Hlt.
        destruct (Pos.compare_spec mx my) as [E|E|E]; simpl in Hlt; try discriminate.
        -- subst. lia.
        -- pose proof (mag_trunc_mono_mant mx my ey ltac:(lia)). lia.
      * pose proof (mag_trunc_mono_exp mx ex my ey Vx Vy E). lia.
    + destruct (Z.compare_spec ex ey) as [E|E|E]; try discriminate.
      * subst. rewrite Pos.compare_cont_spec in Hlt. simpl in Hlt.
        destruct (Pos.compare_spec mx my) as [E|E|E]; simpl in Hlt; try discriminate.
        -- subst. lia.
        -- apply mag_trunc_mono_mant. lia.
      * apply mag_trunc_mono_exp; assumption.
Qed.

(** Shifting a mantissa to the left by [d] bits. *)
Lemma iter_xO_spec p d :
  Z.pos (Pos.iter xO p d) = Z.pos p * 2 ^ Z.pos d
  /\ Z.pos (digits2_pos (Pos.iter xO p d)) = Z.pos (digits2_pos p) + Z.pos d.
Proof.
  rewrite Pos2Nat.inj_iter. rewrite <- (positive_nat_Z d).
  assert (G : forall n, Z.pos (Nat.iter n xO p) = Z.pos p * 2 ^ Z.of_nat n
                        /\ Z.pos (digits2_pos (Nat.iter n xO p))
                           = Z.pos (digits2_pos p) + Z.of_nat n).
  { induction n as [|n [IH1 IH2]].
    - simpl. split; lia.
    - rewrite Nat2Z.inj_succ, Z.pow_succ_r by lia. simpl Nat.iter.
      simpl digits2_pos. rewrite Pos2Z.inj_succ, Pos2Z.inj_xO, IH1, IH2. split; lia. }
  apply G.
Qed.

(** An integer below 2^53 in magnitude is a binary64 value: the conversion
    to float64 is exact. *)
Lemma binary_round_exact s p :
  Z.pos p < 2 ^ 53 ->
  exists m e,
    binary_round prec emax s p 0 = S754_finite s m e
    /\ valid_binary (S754_finite s m e) = true
    /\ mag_trunc m e = Z.pos p.
Proof.
  intros Hp.
  pose proof (digits2_pos_bounds p) as [Hlo Hhi].
  set (d := Z.pos (digits2_pos p)) in *.
  assert (Hd : 1 <= d <= 53).
  { split; [unfold d; lia|].
    destruct (Z.le_gt_cases d 53) as [|G]; [assumption|exfalso].
    assert (2 ^ 53 <= 2 ^ (d - 1)) by (apply Z.pow_le_mono_r; lia). lia. }
  (* the mantissa after alignment, and its exponent *)
  assert (A : exists mz,
             shl_align p 0 (fexp prec emax (d + 0)) = (mz, d - 53)
             /\ Z.pos (digits2_pos mz) = 53
             /\ Z.pos mz = Z.pos p * 2 ^ (53 - d)).
  { unfold shl_align, fexp. change (SpecFloat.emin prec emax) with (-1074).
    change prec with 53.
    replace (Z.max (d + 0 - 53) (-1074)) with (d - 53) by lia.
    destruct (d - 53 - 0) as [|q|q] eqn:E.
    - exists p. replace (d - 53) with 0 by lia. replace (53 - d) with 0 by lia.
      split; [reflexivity|]. split; [fold d; lia | simpl; lia].
    - lia.
    - exists (Pos.iter xO p q). destruct (iter_xO_spec p q) as [V D].
      split; [reflexivity|]. fold d in D. split; [lia|].
      rewrite V. f_equal. f_equal. lia. }
  destruct A as (mz & A & Dz & Vz).
  exists mz, (d - 53).
  unfold binary_round. fold d. rewrite A.
  assert (F : fexp prec emax (53 + (d - 53)) - (d - 53) = 0).
  { unfold fexp. change (SpecFloat.emin prec emax) with (-1074). change prec with 53. lia. }
  assert (R : binary_round_aux prec emax s (Z.pos mz) (d - 53) loc_Exact
              = S754_finite s mz (d - 53)).
  { unfold binary_round_aux, shr_fexp. simpl Zdigits2. rewrite Dz, F. simpl.
    rewrite Dz, F. simpl.
    destruct (Z.leb_spec (d - 53) (emax - prec)) as [|G]; [reflexivity|].
    change (emax - prec) with 971 in G. lia. }
  split; [exact R|]. split.
  - simpl. unfold bounded, canonical_mantissa. rewrite Dz.
    apply andb_true_iff. split.
    + apply Z.eqb_eq. unfold fexp. change (SpecFloat.emin prec emax) with (-1074).
      change prec with 53. lia.
    + apply Z.leb_le. change (emax - prec) with 971. lia.
  - unfold mag_trunc. destruct (Z.leb_spec 0 (d - 53)).
    + replace (d - 53) with 0 by lia. rewrite Vz. replace (53 - d) with 0 by lia. simpl. lia.
    + rewrite Vz. replace (- (d - 53)) with (53 - d) by lia.
      apply Z.div_mul. apply Z.pow_nonzero; lia.
Qed.

Lemma float64_of_Z_exact z :
  Z.abs z < 2 ^ 53 -> int64_of_float64 (float64_of_Z z) = Some z.
Proof.
  intros Hz. unfold int64_of_float64, float64_of_Z.
  destruct z as [|p|p]; simpl binary_normalize.
  - reflexivity.
  - destruct (binary_round_exact false p ltac:(lia)) as (m & e & R & V & T).
    rewrite R, (Prim2SF_SF2Prim _ V). simpl. rewrite T.
    destruct (Z.leb_spec (- 2 ^ 63) (Z.pos p)); [|lia].
    destruct (Z.ltb_spec (Z.pos p) (2 ^ 63)); [reflexivity|].
    assert (2 ^ 53 < 2 ^ 63) by (apply Z.pow_lt_mono_r; lia). lia.
  - destruct (binary_round_exact true p ltac:(lia)) as (m & e & R & V & T).
    rewrite R, (Prim2SF_SF2Prim _ V). simpl. rewrite T.
    assert (2 ^ 53 < 2 ^ 63) by (apply Z.pow_lt_mono_r; lia).
    destruct (Z.leb_spec (- 2 ^ 63) (- Z.pos p)); [|lia].
    destruct (Z.ltb_spec (- Z.pos p) (2 ^ 63)); [reflexivity|lia].
Qed.

Lemma int64_of_float64_trunc f d :
  int64_of_float64 f = Some d -> SF_trunc (Prim2SF f) = Some d.
Proof.
  unfold int64_of_float64. destruct (SF_trunc (Prim2SF f)) as [z|]; [|discriminate].
  destruct ((- 2 ^ 63 <=? z) && (z <? 2 ^ 63)); [|discriminate].
  intros H. exact H.
Qed.

(** When [y < x] does not hold between two floats that int64 converts,
    the conversion of [x] is at least that of [y]. *)
Lemma int64_of_float64_mono x y a b :
  (x <? y)%float = false ->
  int64_of_float64 x = Some a -> int64_of_float64 y = Some b ->
  b <= a.
Proof.
  intros Hlt Hx Hy. rewrite ltb_spec in Hlt.
  apply (SF_trunc_mono (Prim2SF x) (Prim2SF y));
    auto using Prim2SF_valid, int64_of_float64_trunc.
Qed.

(** C6, as the code has it: each branch of recalcRecommit clamps on one
    side.  Whenever int64 converts the result, the increase branch returns
    at most maxRecommitInterval, and the decrease branch returns at least
    minRecommit, for a floor below 2^53 ns (about 104 days), which float64
    holds exactly.  The bounds do not depend on how [next] was rounded. *)
Theorem recalcRecommit_clamps_one_side :
  (forall minRecommit prev target d,
      recalcRecommit minRecommit prev target true = Some d ->
      d <= maxRecommitInterval)
  /\ (forall minRecommit prev target d,
         Z.abs minRecommit < 2 ^ 53 ->
         recalcRecommit minRecommit prev target false = Some d ->
         minRecommit <= d).
Proof.
  assert (Hmax : int64_of_float64 (float64_of_Z maxRecommitInterval)
                 = Some maxRecommitInterval) by (vm_compute; reflexivity).
  split.
  - intros minRecommit prev target d. unfold recalcRecommit.
    set (next := (_ + _)%float).
    destruct (float64_of_Z maxRecommitInterval <? next)%float eqn:L.
    + rewrite Hmax. intros [= <-]. lia.
    + intros Hd. exact (int64_of_float64_mono _ _ _ _ L Hmax Hd).
  - intros minRecommit prev target d Hrep.
    pose proof (float64_of_Z_exact minRecommit Hrep) as Hmin.
    unfold recalcRecommit.
    set (next := (_ + _)%float).
    destruct (next <? float64_of_Z minRecommit)%float eqn:L.
    + rewrite Hmin. intros [= <-]. lia.
    + intros Hd. exact (int64_of_float64_mono _ _ _ _ L Hd Hmin).
Qed.

(** * The definitions at work on the concrete instance *)

(** C1: at a head of number 100, clearPending keeps the pending task of
    block 1, which is 99 blocks behind, and deletes the pending task of
    block 100, which is not behind at all: the comparison of line 547 is
    the reverse of the purge of stale tasks. *)
Theorem clearPending_keeps_stale_deletes_recent :
  clearPending 100 demo_pending !! 11 = Some (demo_task 1 1001)
  /\ clearPending 100 demo_pending !! 22 = None.
Proof. rewrite !clearPending_lookup. split; reflexivity. Qed.

Lemma miningCommitTx_restores_on_failure_witness :
  exists env' ibs',
    miningCommitTx demo_apply demo_tx2 (env_coinbase demo_env) demo_ibs demo_env
    = (inl (ErrWrap "nonce too low: address 0x01" ErrNonceTooLow), env', ibs')
    /\ Gas (env_gasPool env') = Gas (env_gasPool demo_env)
    /\ ibs_world ibs' = ibs_world demo_ibs
    /\ ibs_revisions ibs' = ibs_revisions demo_ibs
    /\ env_txs env' = env_txs demo_env
    /\ env_receipts env' = env_receipts demo_env.
Proof.
  apply (miningCommitTx_restores_on_failure demo_apply demo_tx2 demo_ibs demo_env).
  reflexivity.
Defined.

Lemma fillTransactions_skips_failing_candidate_witness :
  (exists env' ibs' l,
      fill_loop 21000%N demo_apply None 1 [demo_tx2; demo_tx3] demo_env demo_ibs
      = log_cons l (fill_loop 21000%N demo_apply None 2 [demo_tx3] env' ibs')
      /\ env_txs env' = env_txs demo_env
      /\ env_receipts env' = env_receipts demo_env
      /\ env_gasPool env' = env_gasPool demo_env
      /\ env_tcount env' = env_tcount demo_env
      /\ ibs_world ibs' = ibs_world demo_ibs)
  /\ env_txs (fr_env (fillTransactions 21000%N demo_apply
                                       (inr [demo_tx1; demo_tx2; demo_tx3])
                                       None demo_env demo_ibs))
     = [demo_tx1; demo_tx3].
Proof.
  destruct (fillTransactions_skips_failing_candidate 21000%N demo_apply) as [A B].
  split.
  - apply (A None 1%nat demo_tx2 [demo_tx3] demo_env demo_ibs
             (ErrWrap "nonce too low: address 0x01" ErrNonceTooLow)).
    + reflexivity.
    + vm_compute. discriminate.
    + reflexivity.
  - eapply (B None demo_tx1 demo_tx2 demo_tx3 demo_env demo_ibs).
    + intros k _. reflexivity.
    + reflexivity.
    + reflexivity.
    + reflexivity.
    + reflexivity.
    + vm_compute. discriminate.
    + vm_compute. discriminate.
Defined.

Lemma fillTransactions_within_gas_limit_witness :
  N.le (sum_gasUsed
          (env_receipts
             (fr_env (fillTransactions 21000%N demo_apply
                                       (inr [demo_tx1; demo_tx2; demo_tx3])
                                       None (makeEnv [8; 9] demo_header 77) demo_ibs))))
       (hdr_GasLimit demo_header).
Proof.
  apply (fillTransactions_within_gas_limit 21000%N demo_apply).
  intros cb gp s h tx r. unfold demo_apply, Gas.
  destruct (tx_Payload tx <? 0); [discriminate|].
  destruct (N.ltb_spec gp (Z.to_N (tx_Payload tx))); [discriminate|].
  simpl. intros [= <-]. simpl. split; [assumption | reflexivity].
Defined.


Lemma resultLoop_writes_once_witness :
  let first := resultLoop_step demo_result_collab demo_worker [] (Some (demo_block 100 1100)) in
  let second := resultLoop_step demo_result_collab demo_worker (fst first)
                                (Some (demo_block 100 1100)) in
  count_writes (snd first) = 1%nat
  /\ second = (fst first, [])
  /\ count_writes (snd first ++ snd second) = 1%nat.
Proof.
  refine (proj2 (proj2 (resultLoop_writes_once demo_result_collab _ _))
                demo_worker demo_worker [] (demo_block 100 1100)
                (demo_task 100 1100) _ _ _ _).
  - intros chain b rs s n chain' [= <-]. simpl.
    rewrite !Z.eqb_refl. reflexivity.
  - intros chain b chain' e h n [= <- _] H. exact H.
  - reflexivity.
  - reflexivity.
  - reflexivity.
Defined.



Lemma commitWork_commits_after_fill_error_witness :
  let r := commitWork demo_build_collab demo_worker demo_new_head_flag false 1700000000 in
  cr_ret r = Ok None
  /\ (exists b, w_snapshotBlock (cr_worker r) = Some b /\ blk_Transactions b = [demo_tx1])
  /\ (exists t, In (EvTask t) (cr_events r)
                /\ blk_Transactions (task_block t) = [demo_tx1])
  /\ forall a, ~ In (EvResubmitAdjust a) (cr_events r).
Proof.
  pose (fr := fillTransactions (TxGas demo_build_collab)
                (ApplyTransaction demo_build_collab) (GetTransaction demo_build_collab)
                demo_new_head_flag
                (makeEnv [8; 9] (mkHeader 1004 77 5 100000%N 0%N 1700000000 0 0) 77)
                demo_ibs).
  destruct (commitWork_commits_after_fill_error
              demo_build_collab demo_worker demo_new_head_flag false 1700000000
              (makeEnv [8; 9] (mkHeader 1004 77 5 100000%N 0%N 1700000000 0 0) 77)
              errBlockInterruptedByNewHead
              (mkBlock (env_header (env_copy (fr_env fr))) 555 [demo_tx1] 1)
              [] [] (ibs_world (fr_ibs fr)))
    as (Hret & Hsnap & _ & Htask & Hadj & _).
  - reflexivity.
  - discriminate.
  - reflexivity.
  - reflexivity.
  - reflexivity.
  - reflexivity.
  - intros tx. eexists. reflexivity.
  - reflexivity.
  - intros r. split; [exact Hret|]. split.
    + eexists. split; [exact Hsnap | reflexivity].
    + split.
      * eexists. split; [exact Htask | reflexivity].
      * exact (proj2 (Hadj eq_refl)).
Defined.

(** C6, as the spec has it, fails on both sides.  With a floor of one
    second, an increase towards a target of zero returns 0.92 s, below the
    floor.  With a configured interval of twenty seconds, which newWorker
    accepts, the first decrease of workLoop returns twenty seconds, above
    maxRecommitInterval. *)
Lemma recalcRecommit_leaves_interval :
  recalcRecommit 1000000000 1000000000 0%float true = Some 920000000
  /\ adjust_recommit 20000000000 20000000000 (mkIntervalAdjust 0%float false)
     = Some 20000000000
  /\ ~ (forall minRecommit prev target inc d,
           recalcRecommit minRecommit prev target inc = Some d ->
           minRecommit <= d <= maxRecommitInterval).
Proof.
  assert (H : recalcRecommit 1000000000 1000000000 0%float true = Some 920000000)
    by (vm_compute; reflexivity).
  split; [exact H|]. split; [vm_compute; reflexivity|].
  intros C. specialize (C _ _ _ _ _ H). lia.
Qed.

Lemma recalcRecommit_clamps_one_side_witness :
  1820000000 <= maxRecommitInterval /\ 1000000000 <= 1880000000.
Proof.
  destruct recalcRecommit_clamps_one_side as [Hinc Hdec].
  split.
  - apply (Hinc 1000000000 2000000000 0%float 1820000000).
    vm_compute. reflexivity.
  - apply (Hdec 1000000000 2000000000 (float64_of_Z 1000000000) 1880000000).
    + vm_compute. reflexivity.
    + vm_compute. reflexivity.
Defined.

(** * More on assembly *)

Section AssemblyOrder.

Context {World : Type}.
Variable TxGas : N.
Variable Apply :
  Address -> GasPool -> @IntraBlockState World -> Header -> Transaction
  -> @ApplyOutcome World.

Local Abbreviation body := (fill_body TxGas Apply).
Local Abbreviation loop := (fill_loop TxGas Apply).

(** What a completed iteration did: the candidate failed and was skipped,
    or it was accepted. *)
Lemma body_continue_inv interrupt k tx env ibs env' ibs' l :
  body interrupt k tx env ibs = Continue env' ibs' l ->
  signal_at interrupt k = commitInterruptNone
  /\ (TxGas <= Gas (env_gasPool env))%N
  /\ ((exists err,
          ao_result (attempt Apply tx ibs env) = inl err
          /\ env_txs env' = env_txs env
          /\ env_receipts env' = env_receipts env
          /\ env_tcount env' = env_tcount env
          /\ l = (if errors_Is err ErrGasLimitReached || errors_Is err ErrNonceTooHigh
                     || errors_Is err ErrNonceTooLow then None else Some err))
      \/ (exists receipt,
             ao_result (attempt Apply tx ibs env) = inr receipt
             /\ env_txs env' = env_txs env ++ [tx]
             /\ env_receipts env' = env_receipts env ++ [receipt]
             /\ env_tcount env' = wrap_int (env_tcount env + 1)
             /\ l = None)).
Proof.
  intros Hb.
  destruct (Z.eq_dec (signal_at interrupt k) commitInterruptNone) as [H|H].
  2: { rewrite (body_interrupted TxGas Apply interrupt k tx env ibs H) in Hb.
       discriminate. }
  destruct (N.lt_ge_cases (Gas (env_gasPool env)) TxGas) as [G|G].
  { rewrite (body_no_gas TxGas Apply interrupt k tx env ibs H G) in Hb. discriminate. }
  split; [exact H|]. split; [exact G|].
  destruct (ao_result (attempt Apply tx ibs env)) as [err|receipt] eqn:R.
  - left. exists err.
    destruct (body_failure TxGas Apply interrupt k tx env ibs err H G R)
      as (e1 & E & T & Rc & _ & C & _ & _).
    rewrite E in Hb. injection Hb as <- <- <-. auto.
  - right. exists receipt.
    destruct (body_success TxGas Apply interrupt k tx env ibs receipt H G R)
      as (e1 & s1 & E & T & Rc & _ & C & _ & _).
    rewrite E in Hb. injection Hb as <- <- <-. auto.
Qed.

(** The transactions the loop appends are picked from the candidates, in
    their order. *)
Lemma loop_appends_sublist interrupt cands :
  forall k env ibs,
  exists l,
    env_txs (fr_env (loop interrupt k cands env ibs)) = env_txs env ++ l
    /\ sublist l cands.
Proof.
  induction cands as [|tx rest IH]; intros k env ibs; simpl.
  - exists []. rewrite app_nil_r. split; [reflexivity | constructor].
  - destruct (body interrupt k tx env ibs) as [env' ibs' l| |r] eqn:E; simpl.
    + destruct (IH (S k) env' ibs') as (l' & Hl & Hs). rewrite Hl.
      destruct (body_continue_inv _ _ _ _ _ _ _ _ E)
        as (_ & _ & [(err & _ & T & _)|(receipt & _ & T & _)]); rewrite T.
      * exists l'. split; [reflexivity | apply sublist_cons; exact Hs].
      * exists (tx :: l'). rewrite <- app_assoc. split; [reflexivity|].
        apply sublist_skip; exact Hs.
    + exists []. rewrite app_nil_r. split; [reflexivity | apply sublist_nil_l].
    + exists []. rewrite app_nil_r. split; [reflexivity | apply sublist_nil_l].
Qed.

(** X1: the transactions of the context fillTransactions returns are
    candidates of the pool, in the order the pool supplied them, each at
    most as often as the pool supplied it; after a failure of the pool
    there are none. *)
Theorem fillTransactions_keeps_pool_order :
  forall pool interrupt env ibs,
    match pool with
    | inl _ => env_txs (fr_env (fillTransactions TxGas Apply pool interrupt env ibs)) = []
    | inr cands =>
        sublist (env_txs (fr_env (fillTransactions TxGas Apply pool interrupt env ibs)))
                cands
    end.
Proof.
  intros [e|cands] interrupt env ibs; [reflexivity|].
  unfold fillTransactions.
  destruct (loop_appends_sublist interrupt cands 0%nat (env_set_txs env []) ibs)
    as (l & Hl & Hs).
  rewrite Hl. exact Hs.
Qed.

Lemma wrap_int_succ z : wrap_int (wrap_int z + 1) = wrap_int (z + 1).
Proof.
  unfold wrap_int.
  replace ((z + 2 ^ 63) mod 2 ^ 64 - 2 ^ 63 + 1 + 2 ^ 63)
    with ((z + 2 ^ 63) mod 2 ^ 64 + 1) by lia.
  rewrite Z.add_mod_idemp_l by lia.
  replace (z + 2 ^ 63 + 1) with (z + 1 + 2 ^ 63) by lia. reflexivity.
Qed.

(** X2: in a context built by makeEnv, the running count tcount that
    fillTransactions leaves is the number of transactions it accepted (as
    a Go int): failed candidates are not counted. *)
Theorem fillTransactions_counts_accepted :
  forall blocks header coinbase pool interrupt ibs,
    let fr := fillTransactions TxGas Apply pool interrupt
                               (makeEnv blocks header coinbase) ibs in
    env_tcount (fr_env fr) = wrap_int (Z.of_nat (length (env_txs (fr_env fr)))).
Proof.
  intros blocks header coinbase pool interrupt ibs fr.
  destruct (makeEnv_fields blocks header coinbase) as (_ & _ & _ & _ & _ & C).
  set (inv := fun e : environment =>
                env_tcount e = wrap_int (Z.of_nat (length (env_txs e)))).
  assert (I0 : inv (env_set_txs (makeEnv blocks header coinbase) [])).
  { unfold inv. simpl. rewrite C. reflexivity. }
  subst fr. unfold fillTransactions. destruct pool as [e|cands]; [exact I0|].
  apply (loop_preserves TxGas Apply inv interrupt); [|exact I0].
  intros k tx e s e' s' l He Hb. unfold inv in *.
  destruct (body_continue_inv _ _ _ _ _ _ _ _ Hb)
    as (_ & _ & [(err & _ & T & _ & Cn & _)|(receipt & _ & T & _ & Cn & _)]);
    rewrite Cn, T.
  - exact He.
  - rewrite He, wrap_int_succ, length_app. simpl.
    f_equal. lia.
Qed.

(** The loop returns nil, or what signalToErr makes of a signal it read
    before one of the candidates. *)
Lemma loop_returns interrupt cands :
  forall k env ibs,
    fr_ret (loop interrupt k cands env ibs) = Ok None
    \/ exists j, (j < length cands)%nat
                 /\ signal_at interrupt (k + j) <> commitInterruptNone
                 /\ fr_ret (loop interrupt k cands env ibs)
                    = lift_err (signalToErr (signal_at interrupt (k + j))).
Proof.
  induction cands as [|tx rest IH]; intros k env ibs; simpl; [left; reflexivity|].
  destruct (Z.eq_dec (signal_at interrupt k) commitInterruptNone) as [H|H].
  - destruct (body interrupt k tx env ibs) as [env' ibs' l| |r] eqn:E; simpl.
    + destruct (IH (S k) env' ibs') as [N|(j & Hj & Hs & Hr)]; [left; exact N|].
      right. exists (S j). replace (k + S j)%nat with (S k + j)%nat by lia.
      split; [lia|]. split; assumption.
    + left; reflexivity.
    + rewrite body_attempt in E.
      * destruct (miningCommitTx Apply tx (env_coinbase env) ibs env) as [[[?|?] ?] ?];
          discriminate.
      * exact H.
      * destruct (N.lt_ge_cases (Gas (env_gasPool env)) TxGas) as [G|G]; [|exact G].
        rewrite (body_no_gas TxGas Apply interrupt k tx env ibs H G) in E. discriminate.
  - rewrite (body_interrupted TxGas Apply interrupt k tx env ibs H). simpl.
    right. exists 0%nat. rewrite Nat.add_0_r. split; [lia|]. split; [exact H|reflexivity].
Qed.

(** X3: fillTransactions returns the error of the pool, or nil, or what
    signalToErr makes of a signal read before a candidate; the error of a
    transaction is never returned.  Without an interruption flag it returns
    nil whenever the pool delivers. *)
Theorem fillTransactions_return_values :
  forall pool interrupt env ibs,
    let fr := fillTransactions TxGas Apply pool interrupt env ibs in
    match pool with
    | inl err => fr_ret fr = Ok (Some err)
    | inr cands =>
        (fr_ret fr = Ok None
         \/ exists k, (k < length cands)%nat
                      /\ signal_at interrupt k <> commitInterruptNone
                      /\ fr_ret fr = lift_err (signalToErr (signal_at interrupt k)))
        /\ (interrupt = None -> fr_ret fr = Ok None)
    end.
Proof.
  intros [e|cands] interrupt env ibs fr; [reflexivity|].
  subst fr. unfold fillTransactions.
  pose proof (loop_returns interrupt cands 0%nat (env_set_txs env []) ibs) as R.
  split; [exact R|].
  intros ->. destruct R as [R|(j & _ & Hs & _)]; [exact R|].
  exfalso. apply Hs. reflexivity.
Qed.

(** The errors the loop logs were returned by the application of a
    candidate and are none of the three recoverable ones. *)
Lemma loop_logged interrupt cands :
  forall k env ibs,
    Forall (fun e => errors_Is e ErrGasLimitReached = false
                     /\ errors_Is e ErrNonceTooHigh = false
                     /\ errors_Is e ErrNonceTooLow = false)
           (fr_logged (loop interrupt k cands env ibs))
    /\ (length (fr_logged (loop interrupt k cands env ibs))
        + length (env_txs (fr_env (loop interrupt k cands env ibs)))
        <= length (env_txs env) + length cands)%nat.
Proof.
  induction cands as [|tx rest IH]; intros k env ibs; simpl.
  - split; [constructor | lia].
  - destruct (body interrupt k tx env ibs) as [env' ibs' l| |r] eqn:E; simpl;
      try (split; [constructor | lia]).
    destruct (IH (S k) env' ibs') as [F L].
    destruct (body_continue_inv _ _ _ _ _ _ _ _ E)
      as (_ & _ & [(err & _ & T & _ & _ & Hl)|(receipt & _ & T & _ & _ & Hl)]);
      subst l; rewrite T in L.
    + destruct (errors_Is err ErrGasLimitReached) eqn:E1; simpl; [split; [exact F|lia]|].
      destruct (errors_Is err ErrNonceTooHigh) eqn:E2; simpl; [split; [exact F|lia]|].
      destruct (errors_Is err ErrNonceTooLow) eqn:E3; simpl; [split; [exact F|lia]|].
      split; [constructor; auto | simpl; lia].
    + split; [exact F|]. rewrite length_app in L. simpl in L. lia.
Qed.

(** X4: fillTransactions logs with log.Error only errors that are none of
    gas-limit-reached, nonce-too-high and nonce-too-low, also when wrapped;
    and every candidate is accepted, logged or passed over at most once:
    the accepted and the logged ones together are no more than the pool
    supplied. *)
Theorem fillTransactions_logs_unclassified_only :
  forall cands interrupt env ibs,
    let fr := fillTransactions TxGas Apply (inr cands) interrupt env ibs in
    Forall (fun e => errors_Is e ErrGasLimitReached = false
                     /\ errors_Is e ErrNonceTooHigh = false
                     /\ errors_Is e ErrNonceTooLow = false)
           (fr_logged fr)
    /\ (length (fr_logged fr) + length (env_txs (fr_env fr)) <= length cands)%nat.
Proof.
  intros cands interrupt env ibs fr. subst fr. unfold fillTransactions.
  destruct (loop_logged interrupt cands 0%nat (env_set_txs env []) ibs) as [F L].
  split; [exact F | exact L].
Qed.

End AssemblyOrder.

(** * More on the worker *)

Section WorkerMore.

Context {World : Type}.

Local Abbreviation task' := (@task World).

(** X5: clearPending only deletes.  A key is in the table afterwards
    exactly when it was there before, with the same task, and the number of
    the task's block plus staleThreshold, as a uint256, is below the head's
    number.  Purging twice with the same head is purging once. *)
Theorem clearPending_keeps_exactly number (m : gmap Hash task') :
  (forall h t,
      clearPending number m !! h = Some t
      <-> m !! h = Some t
          /\ Uint256 (Number64 (task_block t) + staleThreshold) < number)
  /\ clearPending number (clearPending number m) = clearPending number m.
Proof.
  assert (L : forall (m' : gmap Hash task') h t,
             clearPending number m' !! h = Some t
             <-> m' !! h = Some t
                 /\ Uint256 (Number64 (task_block t) + staleThreshold) < number).
  { intros m' h t. rewrite clearPending_lookup.
    destruct (m' !! h) as [t'|] eqn:E.
    - destruct (clearPending_test number t') eqn:T.
      + apply clearPending_test_spec in T. split; [discriminate|].
        intros [[= ->] H]. lia.
      + split.
        * intros [= ->]. split; [reflexivity|].
          destruct (Z.lt_ge_cases
                      (Uint256 (Number64 (task_block t) + staleThreshold)) number)
            as [H|H]; [exact H|].
          apply clearPending_test_spec in H. congruence.
        * intros [[= ->] _]. reflexivity.
    - split; [discriminate | intros [? _]; discriminate]. }
  split; [apply L|].
  apply map_eq. intros h.
  destruct (clearPending number m !! h) as [t|] eqn:E.
  - apply L. split; [exact E|]. apply L in E. tauto.
  - destruct (clearPending number (clearPending number m) !! h) as [t|] eqn:E2;
      [|reflexivity].
    apply L in E2. destruct E2 as [E2 _]. congruence.
Qed.

Lemma sum_gasUsed_imap (f : nat -> Receipt -> Receipt) rs :
  (forall i r, receipt_GasUsed (f i r) = receipt_GasUsed r) ->
  sum_gasUsed (imap f rs) = sum_gasUsed rs.
Proof.
  revert f. induction rs as [|r rs IH]; intros f Hf; [reflexivity|].
  simpl. unfold sum_gasUsed in *. simpl. rewrite Hf.
  rewrite (IH (f ∘ S)); [reflexivity|]. intros i r'. apply Hf.
Qed.

(** X6: the receipts the result handler writes are copies of the task's,
    one for one: the i-th keeps its gas and the data of its logs, and
    carries the hash and the number of the sealed block and the index i;
    each of its logs carries the hash of the sealed block. *)
Theorem stamp_receipts_locates hash number rs :
  length (stamp_receipts hash number rs) = length rs
  /\ sum_gasUsed (stamp_receipts hash number rs) = sum_gasUsed rs
  /\ forall (i : nat) r,
      rs !! i = Some r ->
      exists r',
        stamp_receipts hash number rs !! i = Some r'
        /\ receipt_GasUsed r' = receipt_GasUsed r
        /\ receipt_BlockHash r' = hash
        /\ receipt_BlockNumber r' = number
        /\ receipt_TransactionIndex r' = Z.of_nat i
        /\ map log_Data (receipt_Logs r') = map log_Data (receipt_Logs r)
        /\ Forall (fun l => log_BlockHash l = hash) (receipt_Logs r').
Proof.
  unfold stamp_receipts. split; [apply length_imap|].
  split; [apply sum_gasUsed_imap; reflexivity|].
  intros i r Hr. rewrite list_lookup_imap, Hr. simpl.
  eexists. split; [reflexivity|]. simpl. repeat split.
  - rewrite map_map. reflexivity.
  - apply List.Forall_forall. intros l Hl. apply in_map_iff in Hl.
    destruct Hl as (l0 & <- & _). reflexivity.
Qed.

(** X7: the result handler calls WriteBlockWithState only for a block
    that the chain does not have yet and whose seal hash has a pending
    task, and then with that task's receipts, located in the block. *)
Theorem resultLoop_writes_only_pending {Chain : Type} (c : @result_collab World Chain)
        w chain blk b rs :
  In (EvWriteBlockWithState b rs) (snd (resultLoop_step c w chain blk)) ->
  blk = Some b
  /\ HasBlock c chain (blk_Hash b) (Uint64 (Number64 b)) = false
  /\ exists t,
      w_pendingTasks w !! SealHash c (blk_Header b) = Some t
      /\ rs = stamp_receipts (blk_Hash b) (Number64 b) (task_receipts t).
Proof.
  unfold resultLoop_step. destruct blk as [b0|]; [|simpl; tauto].
  destruct (HasBlock c chain _ _) eqn:Hh; [simpl; tauto|].
  destruct (w_pendingTasks w !! _) as [t|] eqn:Hl;
    [|simpl; intros [H|[]]; discriminate].
  destruct (WriteBlockWithState c chain b0 _ _ _) as [chain' [e|]] eqn:Hw.
  - simpl. intros [[= <- <-]|[H|[]]]; [|discriminate]. eauto.
  - destruct (SealedBlock c chain' b0) as [chain'' [e|]];
      destruct (0 <? length _)%nat; simpl;
      intros H; repeat (destruct H as [H|H]; try discriminate);
      try contradiction; injection H as <- <-; eauto.
Qed.

(** X8: the handler publishes the logs and the new chain head only for
    a block it has written: logs go out when the write succeeded and there
    is at least one, the chain-head event when, after that, the broadcast
    through SealedBlock succeeded as well. *)
Theorem resultLoop_publishes_after_write {Chain : Type} (c : @result_collab World Chain)
        w chain blk :
  (forall logs,
      In (EvNewLogs logs) (snd (resultLoop_step c w chain blk)) ->
      logs <> []
      /\ exists b t chain',
          blk = Some b
          /\ w_pendingTasks w !! SealHash c (blk_Header b) = Some t
          /\ logs = concat (map receipt_Logs
                                (stamp_receipts (blk_Hash b) (Number64 b) (task_receipts t)))
          /\ WriteBlockWithState c chain b
               (stamp_receipts (blk_Hash b) (Number64 b) (task_receipts t))
               (task_state t) (task_nopay t) = (chain', None))
  /\ (forall b,
         In (EvChainHighestBlock b) (snd (resultLoop_step c w chain blk)) ->
         blk = Some b
         /\ exists t chain',
             w_pendingTasks w !! SealHash c (blk_Header b) = Some t
             /\ WriteBlockWithState c chain b
                  (stamp_receipts (blk_Hash b) (Number64 b) (task_receipts t))
                  (task_state t) (task_nopay t) = (chain', None)
             /\ SealedBlock c chain' b = (fst (resultLoop_step c w chain blk), None)).
Proof.
  unfold resultLoop_step. destruct blk as [b0|]; [|simpl; split; intros; tauto].
  destruct (HasBlock c chain _ _) eqn:Hh; [simpl; split; intros; tauto|].
  destruct (w_pendingTasks w !! _) as [t|] eqn:Hl.
  2: { simpl. split; intros ? [H|[]]; discriminate. }
  destruct (WriteBlockWithState c chain b0 _ _ _) as [chain' [e|]] eqn:Hw.
  { simpl. split; intros ? H; repeat (destruct H as [H|H]; try discriminate);
      contradiction. }
  set (logs0 := concat _).
  destruct (SealedBlock c chain' b0) as [chain'' [e|]] eqn:Hs;
    destruct (0 <? length logs0)%nat eqn:Hn; simpl;
    (split; [intros logs H | intros b H]);
    repeat (destruct H as [H|H]; try discriminate); try contradiction.
  - injection H as <-. split.
    + intros E. rewrite E in Hn. discriminate.
    + exists b0, t, chain'. auto.
  - injection H as <-. split.
    + intros E. rewrite E in Hn. discriminate.
    + exists b0, t, chain'. auto.
  - injection H as <-. split; [reflexivity|]. exists t, chain'. auto.
  - injection H as <-. split; [reflexivity|]. exists t, chain'. auto.
Qed.

End WorkerMore.

(** * More on the build cycle *)

Section BuildMore.

Context {World : Type}.

(** X9: prepareWork fails with a missing parent when a parent hash is
    asked for that the chain does not know.  When it succeeds, the context
    is fresh (no transaction, no receipt, count zero, the requested fee
    recipient, a pool holding the gas limit of the prepared header), and
    the draft handed to the engine is the child of the parent: its hash as
    parent hash, its number plus one, and a time after the parent's. *)
Theorem prepareWork_fresh_child (c : @build_collab World) param :
  (gp_parentHash param <> 0 ->
   GetBlockByHash c (gp_parentHash param) = None ->
   prepareWork c param = inl (ErrNew "missing parent"))
  /\ (forall env,
         prepareWork c param = inr env ->
         env_txs env = [] /\ env_receipts env = [] /\ env_tcount env = 0
         /\ env_coinbase env = gp_coinbase param
         /\ Gas (env_gasPool env) = hdr_GasLimit (env_header env)
         /\ exists parent draft,
             (if gp_parentHash param =? 0
              then parent = CurrentHeader c
              else GetBlockByHash c (gp_parentHash param) = Some parent)
             /\ enginePrepare c draft = inr (env_header env)
             /\ hdr_ParentHash draft = HeaderHash c parent
             /\ hdr_Coinbase draft = gp_coinbase param
             /\ hdr_Number draft = Uint256 (hdr_Number parent + 1)
             /\ hdr_GasUsed draft = 0%N
             /\ (0 <= hdr_Time parent < 2 ^ 64 - 1 ->
                 hdr_Time parent < hdr_Time draft)).
Proof.
  split.
  - intros Hne Hnone. unfold prepareWork.
    destruct (Z.eqb_spec (gp_parentHash param) 0) as [E|_]; [contradiction|].
    simpl. rewrite Hnone. reflexivity.
  - intros env. unfold prepareWork.
    set (found := if negb (gp_parentHash param =? 0) then _ else _).
    assert (Hfound : forall parent, found = Some parent ->
                                    if gp_parentHash param =? 0
                                    then parent = CurrentHeader c
                                    else GetBlockByHash c (gp_parentHash param)
                                         = Some parent).
    { intros parent. subst found. destruct (gp_parentHash param =? 0); simpl.
      - intros [= <-]. reflexivity.
      - intros H. exact H. }
    destruct found as [parent|]; [|discriminate].
    specialize (Hfound parent eq_refl).
    set (draft := if IsLondon c _ then _ else _).
    destruct (enginePrepare c draft) as [e|header] eqn:Hp; [discriminate|].
    intros [= <-].
    destruct (makeEnv_fields (GetBlocksFromHash c (hdr_ParentHash parent) 3)
                             header (gp_coinbase param))
      as (T & R & P & Hh & Cb & Cn).
    rewrite T, R, P, Hh, Cb, Cn. repeat split.
    exists parent, draft. split; [exact Hfound|]. split; [exact Hp|].
    assert (D : hdr_ParentHash draft = HeaderHash c parent
                /\ hdr_Coinbase draft = gp_coinbase param
                /\ hdr_Number draft = Uint256 (hdr_Number parent + 1)
                /\ hdr_GasUsed draft = 0%N
                /\ hdr_Time draft
                   = (if gp_timestamp param <=? hdr_Time parent
                      then Uint64 (hdr_Time parent + 1) else gp_timestamp param)).
    { subst draft. destruct (IsLondon c _); [|repeat split].
      destruct (negb (IsLondon c _)); repeat split. }
    destruct D as (D1 & D2 & D3 & D4 & D5).
    repeat split; try assumption.
    intros Ht. rewrite D5.
    destruct (Z.leb_spec (gp_timestamp param) (hdr_Time parent)); [|lia].
    unfold Uint64. rewrite Z.mod_small; lia.
Qed.




(** The context of a successful prepareWork comes from makeEnv. *)
Lemma prepareWork_makeEnv (c : @build_collab World) param env :
  prepareWork c param = inr env ->
  exists blocks header, env = makeEnv blocks header (gp_coinbase param).
Proof.
  unfold prepareWork.
  destruct (if negb (gp_parentHash param =? 0) then _ else _) as [parent|];
    [|discriminate].
  destruct (enginePrepare c _) as [e|header]; [discriminate|].
  intros [= <-]. eauto.
Qed.

(** X12: when the pool supplies nothing, or when the gas limit of the
    header is below TxGas and no signal is up, commitWork applies no
    transaction: it sends the decrease feedback and goes on with commit on
    the context as prepareWork made it, without transaction or receipt,
    and on the state as it was opened. *)
Theorem commitWork_nothing_to_include (c : @build_collab World) w interrupt
        noempty timestamp current :
  (isRunning w && (w_coinbase w =? 0)) = false ->
  prepareWork c (mkGenerateParams (Uint64 timestamp) 0 (w_coinbase w) 0 false)
  = inr current ->
  BeginRo c = None ->
  (GetTransaction c = inr []
   \/ (exists cands, GetTransaction c = inr cands)
      /\ signal_at interrupt 0 = commitInterruptNone
      /\ (hdr_GasLimit (env_header current) < TxGas c)%N) ->
  let rc := commit c w current (mkIBS (initialWorld c) [] 0 0 0) in
  let r := commitWork c w interrupt noempty timestamp in
  env_txs current = [] /\ env_receipts current = []
  /\ cr_ret r = cr_ret rc
  /\ cr_worker r = cr_worker rc
  /\ cr_events r
     = EvResubmitAdjust (mkIntervalAdjust 0%float false)
       :: cr_events rc ++ match cr_ret rc with
                          | Ok (Some _) => [EvLogError "w.commit failed"]
                          | _ => []
                          end.
Proof.
  intros G Hprep Hro Hpool rc r.
  destruct (prepareWork_makeEnv _ _ _ Hprep) as (blocks & header & Hcur).
  destruct (makeEnv_fields blocks header (w_coinbase w)) as (T & R & P & Hh & _ & _).
  simpl in Hcur. rewrite <- Hcur in T, R, P, Hh.
  assert (E0 : env_set_txs current [] = current).
  { destruct current. simpl in T. subst. reflexivity. }
  assert (F : fillTransactions (TxGas c) (ApplyTransaction c) (GetTransaction c)
                               interrupt current (mkIBS (initialWorld c) [] 0 0 0)
              = mkFillResult (Ok None) current (mkIBS (initialWorld c) [] 0 0 0) []).
  { unfold fillTransactions. rewrite E0.
    destruct Hpool as [->|([cands ->] & Hs & Hg)]; [reflexivity|].
    destruct cands as [|tx rest]; [reflexivity|]. simpl.
    rewrite body_no_gas; [reflexivity | exact Hs |].
    unfold Gas. rewrite P, <- Hh. exact Hg. }
  pose proof (commitWork_after_fill c w interrupt noempty timestamp current None
                                    G Hprep Hro) as A.
  rewrite F in A. specialize (A eq_refl). simpl in A.
  destruct A as (A1 & A2 & A3).
  split; [exact T|]. split; [exact R|].
  split; [exact A1|]. split; [exact A2|]. exact A3.
Qed.

End BuildMore.

(** * The sealing dispatch *)

Section TaskLoopFacts.

Context {World : Type}.

(** X13: when the engine fails to seal a task that is not a repeat, the
    table of pending tasks ends up without any entry under the task's seal
    hash, also when an earlier task was registered under it; the other
    entries stay.  The seal hash is remembered all the same, the engine
    was asked once, and the start signal is sent again exactly when the
    error is, or wraps, ErrNotEnoughSign. *)
Theorem taskLoop_failed_seal_unregisters (c : seal_collab) st (w : @worker World) t err :
  sc_SealHash c (blk_Header (task_block t)) <> tl_prev st ->
  sc_Seal c (task_block t) = Some err ->
  let sealHash := sc_SealHash c (blk_Header (task_block t)) in
  let r := taskLoop_step c st w t in
  w_pendingTasks (snd (fst r)) = delete sealHash (w_pendingTasks w)
  /\ w_pendingTasks (snd (fst r)) !! sealHash = None
  /\ tl_prev (fst (fst r)) = sealHash
  /\ tl_stopCh (fst (fst r)) = true
  /\ length (List.filter is_seal (snd r)) = 1%nat
  /\ (In TeStart (snd r) <-> errors_Is err (sc_ErrNotEnoughSign c) = true).
Proof.
  intros Hne Hseal sealHash r. subst r. unfold taskLoop_step. fold sealHash.
  destruct (Z.eqb_spec sealHash (tl_prev st)) as [E|_]; [contradiction|].
  rewrite Hseal. simpl.
  rewrite delete_insert_eq. split; [reflexivity|].
  split; [apply lookup_delete_eq|]. split; [reflexivity|]. split; [reflexivity|].
  split.
  - destruct (sc_hasHook c), (tl_stopCh st),
      (errors_Is err (sc_ErrNotEnoughSign c)); reflexivity.
  - destruct (errors_Is err (sc_ErrNotEnoughSign c)).
    + split; [reflexivity|]. intros _.
      apply in_or_app. right. apply in_or_app. right. simpl. auto.
    + split; [|discriminate]. intros H.
      apply in_app_or in H. destruct H as [H|H].
      * destruct (sc_hasHook c); simpl in H; intuition discriminate.
      * apply in_app_or in H. destruct H as [H|H].
        -- destruct (tl_stopCh st); simpl in H; intuition discriminate.
        -- simpl in H. intuition discriminate.
Qed.

(** X14: a task with the seal hash of the task handled just before is
    dropped: the engine is not asked, the table and the state stay as they
    are.  This holds after a sealing that failed as well, so that
    submitting the same work again does not retry it. *)
Theorem taskLoop_drops_repeated_seal_hash (c : seal_collab) st (w : @worker World) t t' :
  sc_SealHash c (blk_Header (task_block t'))
  = sc_SealHash c (blk_Header (task_block t)) ->
  let r := taskLoop_step c st w t in
  taskLoop_step c (fst (fst r)) (snd (fst r)) t'
  = (fst (fst r), snd (fst r), if sc_hasHook c then [TeHook t'] else []).
Proof.
  intros Hsame r.
  assert (P : tl_prev (fst (fst r)) = sc_SealHash c (blk_Header (task_block t))).
  { subst r. unfold taskLoop_step.
    destruct (Z.eqb_spec (sc_SealHash c (blk_Header (task_block t))) (tl_prev st))
      as [E|_]; [simpl; congruence|].
    destruct (sc_Seal c (task_block t)); reflexivity. }
  unfold taskLoop_step at 1. rewrite Hsame, P, Z.eqb_refl. reflexivity.
Qed.

(** X15: a task the engine accepted is registered under its seal hash,
    the other entries untouched, and the result handler finds it there:
    when the sealed block arrives with that seal hash and the chain does
    not have it yet, the handler writes the block with the receipts of
    that very task. *)
Theorem taskLoop_registers_for_resultLoop {Chain : Type}
        (c : seal_collab) (rc : @result_collab World Chain) st w t chain b :
  sc_SealHash c (blk_Header (task_block t)) <> tl_prev st ->
  sc_Seal c (task_block t) = None ->
  SealHash rc (blk_Header b) = sc_SealHash c (blk_Header (task_block t)) ->
  HasBlock rc chain (blk_Hash b) (Uint64 (Number64 b)) = false ->
  let w' := snd (fst (taskLoop_step c st w t)) in
  w_pendingTasks w' !! sc_SealHash c (blk_Header (task_block t)) = Some t
  /\ (forall h, h <> sc_SealHash c (blk_Header (task_block t)) ->
                w_pendingTasks w' !! h = w_pendingTasks w !! h)
  /\ In (EvWriteBlockWithState
           b (stamp_receipts (blk_Hash b) (Number64 b) (task_receipts t)))
        (snd (resultLoop_step rc w' chain (Some b))).
Proof.
  intros Hne Hseal Hsh Hhas w'.
  assert (W : w_pendingTasks w'
              = <[ sc_SealHash c (blk_Header (task_block t)) := t ]> (w_pendingTasks w)).
  { subst w'. unfold taskLoop_step.
    destruct (Z.eqb_spec (sc_SealHash c (blk_Header (task_block t))) (tl_prev st))
      as [E|_]; [contradiction|].
    rewrite Hseal. reflexivity. }
  split; [rewrite W; apply lookup_insert_eq|].
  split; [intros h Hh; rewrite W; apply lookup_insert_ne; congruence|].
  unfold resultLoop_step. rewrite Hhas, Hsh, W, lookup_insert_eq.
  destruct (WriteBlockWithState rc chain b _ _ _) as [chain' [e|]].
  - simpl. auto.
  - destruct (SealedBlock rc chain' b) as [chain'' [e|]]; simpl; auto.
Qed.

End TaskLoopFacts.

(** * The subscription topic handler *)

Section SubTopicFacts.

Variable Extract : string -> error + Z.

Local Abbreviation add := (addTopic Extract).
Local Abbreviation remove := (removeTopic Extract).

(** X16: a topic that was added exists, with the subscription given
    last; a topic that was removed does not, also when its digest cannot be
    extracted.  Neither operation changes what is known of another topic. *)
Theorem subTopics_add_remove_lookup s topic sub other :
  topicExists (fst (add s topic sub)) topic = true
  /\ subForTopic (fst (add s topic sub)) topic = sub
  /\ topicExists (fst (remove s topic)) topic = false
  /\ subForTopic (fst (remove s topic)) topic = 0
  /\ (other <> topic ->
      topicExists (fst (add s topic sub)) other = topicExists s other
      /\ subForTopic (fst (add s topic sub)) other = subForTopic s other
      /\ topicExists (fst (remove s topic)) other = topicExists s other
      /\ subForTopic (fst (remove s topic)) other = subForTopic s other).
Proof.
  assert (A : subTopics (fst (add s topic sub)) = <[ topic := sub ]> (subTopics s)).
  { unfold addTopic. destruct (Extract topic); reflexivity. }
  assert (R : subTopics (fst (remove s topic)) = delete topic (subTopics s)).
  { unfold removeTopic. destruct (Extract topic) as [e|d]; [reflexivity|].
    destruct (digestMap s !! d) as [n|]; [|reflexivity].
    destruct (n <=? 0); [reflexivity|].
    destruct (default 0 _ =? 0); reflexivity. }
  unfold topicExists, subForTopic. rewrite A, R.
  rewrite lookup_insert_eq, lookup_delete_eq.
  repeat split; try reflexivity;
    rewrite ?lookup_insert_ne, ?lookup_delete_ne by congruence; reflexivity.
Qed.

Lemma wrap_int_small z : - 2 ^ 63 <= z < 2 ^ 63 -> wrap_int z = z.
Proof. intros H. unfold wrap_int. rewrite Z.mod_small; lia. Qed.

(** The digest map after removeTopic, for a topic with a digest. *)
Lemma remove_digestMap s topic d :
  Extract topic = inr d ->
  (forall n, digestMap s !! d = Some n -> n < 2 ^ 63) ->
  digestMap (fst (remove s topic))
  = match digestMap s !! d with
    | Some n => if 1 <? n then <[ d := n - 1 ]> (digestMap s)
                else delete d (digestMap s)
    | None => delete d (digestMap s)
    end.
Proof.
  intros E Hint. unfold removeTopic. rewrite E.
  destruct (digestMap s !! d) as [n|] eqn:L; [|reflexivity].
  specialize (Hint n eq_refl).
  destruct (Z.leb_spec n 0) as [Hn|Hn].
  - simpl. destruct (Z.ltb_spec 1 n); [lia | reflexivity].
  - rewrite lookup_insert_eq. simpl.
    rewrite wrap_int_small by lia.
    destruct (Z.eqb_spec (n - 1) 0) as [E0|E0]; simpl.
    + destruct (Z.ltb_spec 1 n); [lia|]. apply delete_insert_eq.
    + destruct (Z.ltb_spec 1 n); [reflexivity | lia].
Qed.

Lemma remove_digestMap_no_digest s topic e :
  Extract topic = inl e -> digestMap (fst (remove s topic)) = digestMap s.
Proof. intros E. unfold removeTopic. rewrite E. reflexivity. Qed.

Lemma add_digestMap s topic sub :
  digestMap (fst (add s topic sub))
  = match Extract topic with
    | inl _ => digestMap s
    | inr d => <[ d := wrap_int (default 0 (digestMap s !! d) + 1) ]> (digestMap s)
    end.
Proof. unfold addTopic. destruct (Extract topic); reflexivity. Qed.

Lemma wrap_int_range z : - 2 ^ 63 <= wrap_int z < 2 ^ 63.
Proof.
  unfold wrap_int.
  pose proof (Z.mod_pos_bound (z + 2 ^ 63) (2 ^ 64) ltac:(lia)). lia.
Qed.

(** X17: removeTopic never leaves the digest of its topic with a count
    of zero or less: the count goes down by one and the entry goes when it
    would reach zero, or at once when the count was not positive.  So a
    digest map whose counts are all positive stays so under removeTopic,
    and under addTopic as long as the count of the topic's digest is not
    the largest int; after addTopic the digest of the topic exists. *)
Theorem digest_counts_stay_positive :
  (forall s topic d,
      digests_int s -> Extract topic = inr d ->
      match digestMap (fst (remove s topic)) !! d with
      | Some n => 0 < n
      | None => True
      end)
  /\ (forall s topic,
         digests_int s -> digests_positive s ->
         digests_positive (fst (remove s topic)) /\ digests_int (fst (remove s topic)))
  /\ (forall s topic sub,
         digests_int s -> digests_positive s ->
         (forall d n, Extract topic = inr d -> digestMap s !! d = Some n ->
                      n < 2 ^ 63 - 1) ->
         digests_positive (fst (add s topic sub))
         /\ digests_int (fst (add s topic sub))
         /\ forall d, Extract topic = inr d ->
                      digestExists (fst (add s topic sub)) d = true).
Proof.
  assert (Hint : forall s d n, digests_int s -> digestMap s !! d = Some n ->
                               - 2 ^ 63 <= n < 2 ^ 63).
  { intros s d n Hi L. exact (Hi d n L). }
  split; [|split].
  - intros s topic d Hi E.
    rewrite (remove_digestMap s topic d E) by (intros n L; apply (Hint s d n Hi L)).
    destruct (digestMap s !! d) as [n|] eqn:L.
    + destruct (Z.ltb_spec 1 n).
      * rewrite lookup_insert_eq. lia.
      * rewrite lookup_delete_eq. exact I.
    + rewrite lookup_delete_eq. exact I.
  - intros s topic Hi Hp. unfold digests_positive, digests_int.
    destruct (Extract topic) as [e|d] eqn:E.
    + rewrite (remove_digestMap_no_digest s topic e E). split; assumption.
    + rewrite (remove_digestMap s topic d E) by (intros n L; apply (Hint s d n Hi L)).
      destruct (digestMap s !! d) as [n|] eqn:L.
      * destruct (Z.ltb_spec 1 n).
        -- pose proof (Hint s d n Hi L).
           split; apply map_Forall_insert_2; try assumption; lia.
        -- split; apply map_Forall_delete; assumption.
      * split; apply map_Forall_delete; assumption.
  - intros s topic sub Hi Hp Hmax. unfold digests_positive, digests_int, digestExists.
    rewrite add_digestMap.
    destruct (Extract topic) as [e|d] eqn:E.
    + split; [assumption|]. split; [assumption|]. intros d [=].
    + assert (V : 0 < wrap_int (default 0 (digestMap s !! d) + 1)).
      { destruct (digestMap s !! d) as [n|] eqn:L; simpl.
        - pose proof (Hp d n L) as Hpos. cbv beta in Hpos.
          pose proof (Hmax d n eq_refl L).
          rewrite wrap_int_small; lia.
        - rewrite wrap_int_small; lia. }
      split; [apply map_Forall_insert_2; assumption|].
      split; [apply map_Forall_insert_2; [apply wrap_int_range | assumption]|].
      intros d' [= <-]. rewrite lookup_insert_eq. apply Z.ltb_lt. exact V.
Qed.

(** X18: removing a topic right after adding it gives back the handler
    as it was, when the topic was not subscribed before and the count of its
    digest, if any, was positive and not the largest int; this holds for a
    topic without digest as well. *)
Theorem subTopics_add_then_remove s topic sub :
  subTopics s !! topic = None ->
  (forall d n, Extract topic = inr d -> digestMap s !! d = Some n ->
               0 < n < 2 ^ 63 - 1) ->
  fst (removeTopic Extract (fst (addTopic Extract s topic sub)) topic) = s.
Proof.
  intros Hnew Hcount.
  destruct s as [topics digests]. simpl in *.
  unfold removeTopic, addTopic.
  destruct (Extract topic) as [e|d] eqn:E; simpl; rewrite ?E; simpl.
  - rewrite delete_insert_id by assumption. reflexivity.
  - rewrite lookup_insert_eq.
    destruct (digests !! d) as [n|] eqn:L; simpl.
    + destruct (Hcount d n eq_refl L) as [Hp Hm].
      rewrite (wrap_int_small (n + 1)) by lia.
      destruct (Z.leb_spec (n + 1) 0); [lia|].
      rewrite lookup_insert_eq. simpl.
      replace (n + 1 - 1) with n by lia. rewrite (wrap_int_small n) by lia.
      destruct (Z.eqb_spec n 0); [lia|].
      rewrite insert_insert_eq, (insert_id digests d n L).
      rewrite delete_insert_id by assumption. reflexivity.
    + change (wrap_int (0 + 1)) with 1. change (wrap_int (1 - 1)) with 0.
      rewrite lookup_insert_eq. simpl.
      rewrite !delete_insert_eq, (delete_id digests d L).
      rewrite delete_id by assumption. reflexivity.
Qed.

Lemma fold_left_snoc_keys (l : list (string * Z)) acc :
  fold_left (fun topics kv => topics ++ [fst kv]) l acc = acc ++ l.*1.
Proof.
  revert acc. induction l as [|kv l IH]; intros acc; simpl.
  - rewrite app_nil_r. reflexivity.
  - rewrite IH, <- app_assoc. reflexivity.
Qed.

(** X19: allTopics lists every topic that exists, once, and nothing
    else. *)
Theorem allTopics_lists_existing s :
  NoDup (allTopics s)
  /\ length (allTopics s) = size (subTopics s)
  /\ forall topic, topic ∈ allTopics s <-> topicExists s topic = true.
Proof.
  unfold allTopics. rewrite fold_left_snoc_keys. simpl.
  split; [apply NoDup_fst_map_to_list|].
  split; [rewrite length_fmap; apply length_map_to_list|].
  intros topic. unfold topicExists. rewrite list_elem_of_fmap. split.
  - intros ([k v] & -> & Hin). apply elem_of_map_to_list in Hin. simpl.
    rewrite Hin. reflexivity.
  - destruct (subTopics s !! topic) as [v|] eqn:L; [|discriminate].
    intros _. exists (topic, v). split; [reflexivity|].
    apply elem_of_map_to_list. exact L.
Qed.

End SubTopicFacts.

(** * The lock per address *)

Lemma al_map_lock l address :
  al_map (snd (AddrLocker_lock l address))
  = match al_map l !! address with
    | Some _ => al_map l
    | None => <[ address := al_next l ]> (al_map l)
    end.
Proof.
  unfold AddrLocker_lock. fold (al_map l).
  destruct (al_map l !! address); reflexivity.
Qed.

(** X20: a locker that was never used holds no mutex.  lock keeps the
    mutexes of different addresses apart: it hands out the mutex the address
    already has, or a new one that no address has; asking again for the
    same address gives the same mutex, asking for another address gives
    another one. *)
Theorem AddrLocker_lock_one_mutex_per_address :
  (forall n, AddrLocker_inv (mkAddrLocker None n))
  /\ (forall l address,
         AddrLocker_inv l ->
         let mu := fst (AddrLocker_lock l address) in
         let l' := snd (AddrLocker_lock l address) in
         AddrLocker_inv l'
         /\ al_map l' !! address = Some mu
         /\ fst (AddrLocker_lock l' address) = mu
         /\ (forall other, other <> address ->
                           fst (AddrLocker_lock l' other) <> mu)
         /\ (forall other m, al_map l !! other = Some m ->
                             al_map l' !! other = Some m)).
Proof.
  split.
  - intros n. split; simpl; intros; simplify_map_eq.
  - intros l address [Hlt Hinj] mu l'.
    assert (Hmu : mu = match al_map l !! address with
                       | Some m => m
                       | None => al_next l
                       end).
    { subst mu. unfold AddrLocker_lock. fold (al_map l).
      destruct (al_map l !! address); reflexivity. }
    assert (Hnext : al_next l' = match al_map l !! address with
                                 | Some _ => al_next l
                                 | None => S (al_next l)
                                 end).
    { subst l'. unfold AddrLocker_lock. fold (al_map l).
      destruct (al_map l !! address); reflexivity. }
    pose proof (al_map_lock l address) as Hmap. fold l' in Hmap.
    assert (Hself : al_map l' !! address = Some mu).
    { rewrite Hmap, Hmu. destruct (al_map l !! address) eqn:L; [exact L|].
      apply lookup_insert_eq. }
    assert (Hinv : AddrLocker_inv l').
    { split.
      - intros a m. rewrite Hmap, Hnext.
        destruct (al_map l !! address) eqn:L; [apply Hlt|].
        destruct (decide (a = address)) as [->|Hne].
        + rewrite lookup_insert_eq. intros [= <-]. lia.
        + rewrite lookup_insert_ne by congruence. intros H.
          pose proof (Hlt a m H). lia.
      - intros a b m. rewrite Hmap.
        destruct (al_map l !! address) eqn:L; [apply Hinj|].
        destruct (decide (a = address)) as [->|Ha];
          destruct (decide (b = address)) as [->|Hb];
          rewrite ?lookup_insert_eq, ?lookup_insert_ne by congruence.
        + reflexivity.
        + intros [= <-] H. pose proof (Hlt b _ H). lia.
        + intros H [= <-]. pose proof (Hlt a _ H). lia.
        + apply Hinj. }
    split; [exact Hinv|]. split; [exact Hself|].
    assert (Hagain : forall a m, al_map l' !! a = Some m ->
                                 fst (AddrLocker_lock l' a) = m).
    { intros a m H. unfold AddrLocker_lock. fold (al_map l'). rewrite H. reflexivity. }
    split; [apply Hagain; exact Hself|].
    split.
    + intros other Hne Heq.
      destruct Hinv as [Hlt' Hinj'].
      destruct (al_map l' !! other) as [m|] eqn:Lo.
      * rewrite (Hagain other m Lo) in Heq. subst m.
        apply Hne. exact (Hinj' other address mu Lo Hself).
      * unfold AddrLocker_lock in Heq. fold (al_map l') in Heq. rewrite Lo in Heq.
        simpl in Heq. pose proof (Hlt' address mu Hself). lia.
    + intros other m H. rewrite Hmap.
      destruct (al_map l !! address) eqn:L; [exact H|].
      rewrite lookup_insert_ne; [exact H|]. intros <-. congruence.
Qed.

(** * Access lists *)

Lemma wrap_int_add_l z n : wrap_int (wrap_int z + n) = wrap_int (z + n).
Proof.
  unfold wrap_int.
  replace ((z + 2 ^ 63) mod 2 ^ 64 - 2 ^ 63 + n + 2 ^ 63)
    with ((z + 2 ^ 63) mod 2 ^ 64 + n) by lia.
  rewrite Z.add_mod_idemp_l by lia.
  replace (z + 2 ^ 63 + n) with (z + n + 2 ^ 63) by lia. reflexivity.
Qed.

Lemma StorageKeys_fold (al : AccessList) z :
  fold_left (fun sum tuple => wrap_int (sum + Z.of_nat (length (at_StorageKeys tuple))))
            al (wrap_int z)
  = wrap_int (z + Z.of_nat (length (concat (map at_StorageKeys al)))).
Proof.
  revert z. induction al as [|t al IH]; intros z; simpl.
  - rewrite Z.add_0_r. reflexivity.
  - rewrite wrap_int_add_l, IH, length_app, Nat2Z.inj_add. f_equal. lia.
Qed.

(** X21: StorageKeys is the number of storage keys of all the tuples
    together, as a Go int: exactly that number below 2^63; and the keys of
    two lists joined are the keys of the one plus the keys of the other. *)
Theorem StorageKeys_counts_all_keys (al al' : AccessList) :
  StorageKeys al = wrap_int (Z.of_nat (length (concat (map at_StorageKeys al))))
  /\ (Z.of_nat (length (concat (map at_StorageKeys al))) < 2 ^ 63 ->
      StorageKeys al = Z.of_nat (length (concat (map at_StorageKeys al))))
  /\ StorageKeys (al ++ al') = wrap_int (StorageKeys al + StorageKeys al').
Proof.
  assert (T : forall l : AccessList,
             StorageKeys l = wrap_int (Z.of_nat (length (concat (map at_StorageKeys l))))).
  { intros l. unfold StorageKeys. change 0 with (wrap_int 0) at 1.
    rewrite StorageKeys_fold. reflexivity. }
  split; [apply T|]. split.
  - intros H. rewrite T. apply wrap_int_small. lia.
  - rewrite !T, map_app, concat_app, length_app, Nat2Z.inj_add.
    rewrite wrap_int_add_l, (Z.add_comm _ (wrap_int _)), wrap_int_add_l. f_equal. lia.
Qed.

(** X22: the copy of an access-list transaction has every big integer
    set: the value of the original, or zero where the original had nil.
    The nonce, the gas, the recipient (nil stays nil), the data and the
    access list are those of the original, and a copy of a copy is that
    copy.  The tip cap and the fee cap are the gas price. *)
Theorem AccessListTx_copy_initialises tx :
  let cpy := AccessListTx_copy tx in
  altx_ChainID cpy = Some (default 0 (altx_ChainID tx))
  /\ altx_GasPrice cpy = Some (default 0 (altx_GasPrice tx))
  /\ altx_Value cpy = Some (default 0 (altx_Value tx))
  /\ altx_rawSignatureValues cpy
     = (Some (default 0 (altx_V tx)), Some (default 0 (altx_R tx)),
        Some (default 0 (altx_S tx)))
  /\ altx_Nonce cpy = altx_Nonce tx /\ altx_Gas cpy = altx_Gas tx
  /\ altx_To cpy = altx_To tx /\ altx_Data cpy = altx_Data tx
  /\ altx_AccessList cpy = altx_AccessList tx
  /\ AccessListTx_copy cpy = cpy
  /\ altx_gasTipCap cpy = altx_gasPrice cpy
  /\ altx_gasFeeCap cpy = altx_gasPrice cpy.
Proof.
  destruct tx as [chain nonce price gas to value data al v r s].
  destruct chain, price, to, value, v, r, s; repeat split.
Qed.

(** * The table of named databases *)

Section OpenDBIFacts.

Variable newDBI : nat -> string -> error + Z.


End OpenDBIFacts.

(** * FinalizeBlockExecution *)

Lemma error_eqb_refl e : error_eqb e e = true.
Proof.
  induction e; simpl; try reflexivity.
  - apply String.eqb_refl.
  - rewrite String.eqb_refl, IHe. reflexivity.
Qed.

Lemma errors_Is_refl e : errors_Is e e = true.
Proof. destruct e; simpl; rewrite ?String.eqb_refl, ?error_eqb_refl; reflexivity. Qed.

Lemma errors_Is_wrap msg e : errors_Is (ErrWrap msg e) e = true.
Proof. simpl. rewrite errors_Is_refl. apply orb_true_r. Qed.

(** X24: FinalizeBlockExecution returns no transactions and no receipts,
    whatever it was given; the block it returns is the one the engine
    assembled when mining and nil otherwise.  It stops at the first
    failure: the state is committed only after the engine finalized, the
    change sets are written only after the commit, the history only after
    the change sets.  An error of the engine is returned as it is, a later
    one wrapped, so that errors.Is still finds it. *)
Theorem FinalizeBlockExecution_steps (c : finalize_collab) isMining :
  let r := FinalizeBlockExecution c isMining in
  (forall blk txs receipts,
      fst r = inr (blk, txs, receipts) ->
      txs = [] /\ receipts = []
      /\ (if isMining then exists b, fc_FinalizeAndAssemble c = inr b /\ blk = Some b
          else blk = None /\ fc_Finalize c = None)
      /\ fc_CommitBlock c = None /\ fc_WriteChangeSets c = None
      /\ fc_WriteHistory c = None)
  /\ (In FcCommitBlock (snd r) ->
      if isMining then exists b, fc_FinalizeAndAssemble c = inr b
      else fc_Finalize c = None)
  /\ (In FcWriteChangeSets (snd r) -> fc_CommitBlock c = None)
  /\ (In FcWriteHistory (snd r) -> fc_WriteChangeSets c = None)
  /\ (forall e,
         fst r = inl e ->
         (if isMining then fc_FinalizeAndAssemble c = inl e else fc_Finalize c = Some e)
         \/ exists cause,
             errors_Is e cause = true
             /\ (fc_CommitBlock c = Some cause
                 \/ fc_WriteChangeSets c = Some cause
                 \/ fc_WriteHistory c = Some cause)).
Proof.
  intros r. subst r. unfold FinalizeBlockExecution.
  destruct isMining;
    [destruct (fc_FinalizeAndAssemble c) as [e|b] | destruct (fc_Finalize c) as [e|]];
    simpl;
    try destruct (fc_CommitBlock c) as [e1|]; simpl;
    try destruct (fc_WriteChangeSets c) as [e2|]; simpl;
    try destruct (fc_WriteHistory c) as [e3|]; simpl;
    (split; [|split; [|split; [|split]]]);
    try (intros blk txs receipts H; try discriminate;
         injection H as <- <- <-; repeat split; eauto);
    try (intros H; repeat (destruct H as [H|H]; try discriminate);
         solve [eauto | contradiction | reflexivity]);
    try (intros e0 H; try discriminate; injection H as <-;
         solve [left; reflexivity
               | right; eexists; split; [apply errors_Is_wrap | auto]]).
Qed.

(** * The further properties on the concrete instance *)

Lemma resultLoop_writes_only_pending_witness :
  Some (demo_block 100 1100) = Some (demo_block 100 1100)
  /\ HasBlock demo_result_collab [] (blk_Hash (demo_block 100 1100))
              (Uint64 (Number64 (demo_block 100 1100))) = false
  /\ exists t,
      w_pendingTasks demo_worker
        !! SealHash demo_result_collab (blk_Header (demo_block 100 1100)) = Some t
      /\ stamp_receipts 1100 100 (task_receipts (demo_task 100 1100))
         = stamp_receipts (blk_Hash (demo_block 100 1100))
                          (Number64 (demo_block 100 1100)) (task_receipts t).
Proof.
  apply (resultLoop_writes_only_pending demo_result_collab demo_worker []
           (Some (demo_block 100 1100))).
  left. reflexivity.
Defined.

Lemma commitWork_nothing_to_include_witness :
  let current := makeEnv [8; 9] (mkHeader 1004 77 5 100000%N 0%N 1700000000 0 0) 77 in
  let rc := commit demo_empty_pool_collab demo_worker current
                   (mkIBS (initialWorld demo_empty_pool_collab) [] 0 0 0) in
  let r := commitWork demo_empty_pool_collab demo_worker None false 1700000000 in
  env_txs current = [] /\ env_receipts current = []
  /\ cr_ret r = cr_ret rc
  /\ cr_worker r = cr_worker rc
  /\ cr_events r
     = EvResubmitAdjust (mkIntervalAdjust 0%float false)
       :: cr_events rc ++ match cr_ret rc with
                          | Ok (Some _) => [EvLogError "w.commit failed"]
                          | _ => []
                          end.
Proof.
  apply (commitWork_nothing_to_include demo_empty_pool_collab demo_worker None
           false 1700000000).
  - reflexivity.
  - reflexivity.
  - reflexivity.
  - left. reflexivity.
Defined.

Lemma taskLoop_failed_seal_unregisters_witness :
  let r := taskLoop_step demo_seal_collab taskLoop_init demo_worker
                         (demo_task 100 1100) in
  w_pendingTasks (snd (fst r)) = delete 22 (w_pendingTasks demo_worker)
  /\ w_pendingTasks (snd (fst r)) !! 22 = None
  /\ tl_prev (fst (fst r)) = 22
  /\ tl_stopCh (fst (fst r)) = true
  /\ length (List.filter is_seal (snd r)) = 1%nat
  /\ (In TeStart (snd r)
      <-> errors_Is (ErrWrap "seal" (ErrNew "not enough sign"))
                    (sc_ErrNotEnoughSign demo_seal_collab) = true).
Proof.
  apply (taskLoop_failed_seal_unregisters demo_seal_collab taskLoop_init demo_worker
           (demo_task 100 1100) (ErrWrap "seal" (ErrNew "not enough sign"))).
  - discriminate.
  - reflexivity.
Defined.

Lemma taskLoop_drops_repeated_seal_hash_witness :
  let r := taskLoop_step demo_seal_collab taskLoop_init demo_worker
                         (demo_task 100 1100) in
  taskLoop_step demo_seal_collab (fst (fst r)) (snd (fst r)) (demo_task 100 1100)
  = (fst (fst r), snd (fst r), []).
Proof.
  apply (taskLoop_drops_repeated_seal_hash demo_seal_collab taskLoop_init demo_worker
           (demo_task 100 1100) (demo_task 100 1100)).
  reflexivity.
Defined.

Lemma taskLoop_registers_for_resultLoop_witness :
  let w' := snd (fst (taskLoop_step demo_seal_collab taskLoop_init
                                    (mkWorker 77 ∅ 1 None []) (demo_task 1 1001))) in
  w_pendingTasks w' !! 11 = Some (demo_task 1 1001)
  /\ (forall h, h <> 11 -> w_pendingTasks w' !! h = (∅ : gmap Hash (@task Z)) !! h)
  /\ In (EvWriteBlockWithState
           (demo_block 1 1001)
           (stamp_receipts 1001 1 (task_receipts (demo_task 1 1001))))
        (snd (resultLoop_step demo_result_collab w' [] (Some (demo_block 1 1001)))).
Proof.
  apply (taskLoop_registers_for_resultLoop demo_seal_collab demo_result_collab
           taskLoop_init (mkWorker 77 ∅ 1 None []) (demo_task 1 1001) []
           (demo_block 1 1001)).
  - discriminate.
  - reflexivity.
  - reflexivity.
  - reflexivity.
Defined.

Lemma subTopics_add_then_remove_witness :
  fst (removeTopic demo_extract
         (fst (addTopic demo_extract newSubTopicHandler "blocks" 7)) "blocks")
  = newSubTopicHandler.
Proof.
  apply (subTopics_add_then_remove demo_extract newSubTopicHandler "blocks" 7).
  - reflexivity.
  - intros d n _ H. simpl in H. rewrite lookup_empty in H. discriminate.
Defined.

(** * The trigger loop *)

(** X25: on a start signal or a new head the trigger loop requests one
    build, unless it is shut down: not forcing a non-empty block, stamped
    with the current time, with a flag of its own that no earlier request
    has and that reads no signal; the timer is set to the current
    interval.  The flag of the request before it now reads the new-head
    signal; every other flag reads what it read.  The interval is not
    changed. *)
Theorem workLoop_trigger_requests_one_build {World : Type}
        (ctxDone : bool) number now st (w : @worker World) :
  workLoop_inv st ->
  let r := workLoop_trigger ctxDone number now st w in
  let st' := fst (fst r) in
  workLoop_inv st'
  /\ wl_interrupt st' = Some (length (wl_cells st))
  /\ wl_cells st' !! length (wl_cells st) = Some commitInterruptNone
  /\ (forall i, wl_interrupt st = Some i ->
                wl_cells st' !! i = Some commitInterruptNewHead)
  /\ (forall j, wl_interrupt st <> Some j -> (j < length (wl_cells st))%nat ->
                wl_cells st' !! j = wl_cells st !! j)
  /\ wl_recommit st' = wl_recommit st
  /\ wl_timestamp st' = now
  /\ snd r = (if ctxDone then []
              else [TrNewWork (mkNewWorkReq (length (wl_cells st)) false now);
                    TrTimerReset (wl_recommit st)])
  /\ w_pendingTasks (snd (fst r)) = clearPending number (w_pendingTasks w).
Proof.
  intros Hinv r st'. subst st' r.
  unfold workLoop_trigger, workLoop_commit, workLoop_inv in *. simpl.
  set (cells := match wl_interrupt st with
                | Some i => <[ i := commitInterruptNewHead ]> (wl_cells st)
                | None => wl_cells st
                end).
  assert (Hlen : length cells = length (wl_cells st)).
  { subst cells. destruct (wl_interrupt st); [apply length_insert | reflexivity]. }
  assert (R : forall b : bool,
             (if b then (mkWorkLoopState (cells ++ [0]) (Some (length cells)) now
                                         (wl_recommit st), [])
              else (mkWorkLoopState (cells ++ [0]) (Some (length cells)) now
                                    (wl_recommit st),
                    [TrNewWork (mkNewWorkReq (length cells) false now);
                     TrTimerReset (wl_recommit st)]))
             = (mkWorkLoopState (cells ++ [0]) (Some (length cells)) now (wl_recommit st),
                if b then []
                else [TrNewWork (mkNewWorkReq (length cells) false now);
                      TrTimerReset (wl_recommit st)]))
    by (intros []; reflexivity).
  rewrite R. simpl. rewrite Hlen.
  split; [rewrite length_app, Hlen; simpl; lia|].
  split; [reflexivity|].
  split.
  { rewrite lookup_app_r by lia. rewrite Hlen, Nat.sub_diag. reflexivity. }
  split.
  { intros i Hi. subst cells. rewrite Hi in *.
    rewrite lookup_app_l by (rewrite length_insert; exact Hinv).
    apply list_lookup_insert_eq. exact Hinv. }
  split.
  { intros j Hj Hlt. rewrite lookup_app_l by lia. subst cells.
    destruct (wl_interrupt st) as [i|]; [|reflexivity].
    apply list_lookup_insert_ne. congruence. }
  repeat split.
Qed.

Lemma workLoop_trigger_requests_one_build_witness :
  let r := workLoop_trigger false 100 1700000000
                            (mkWorkLoopState [0; 0] (Some 1%nat) 5 1000000000)
                            demo_worker in
  let st' := fst (fst r) in
  workLoop_inv st'
  /\ wl_interrupt st' = Some 2%nat
  /\ wl_cells st' !! 2%nat = Some commitInterruptNone
  /\ (forall i, Some 1%nat = Some i -> wl_cells st' !! i = Some commitInterruptNewHead)
  /\ (forall j, Some 1%nat <> Some j -> (j < 2)%nat ->
                wl_cells st' !! j = [0; 0] !! j)
  /\ wl_recommit st' = 1000000000
  /\ wl_timestamp st' = 1700000000
  /\ snd r = [TrNewWork (mkNewWorkReq 2 false 1700000000); TrTimerReset 1000000000]
  /\ w_pendingTasks (snd (fst r)) = clearPending 100 (w_pendingTasks demo_worker).
Proof.
  apply (workLoop_trigger_requests_one_build false 100 1700000000
           (mkWorkLoopState [0; 0] (Some 1%nat) 5 1000000000) demo_worker).
  unfold workLoop_inv. simpl. lia.
Defined.

(** * The gas budget *)

(** X26: under the same contract of the state-transition function (an
    accepted receipt's gas is debited from the pool, which must hold it),
    what is left in the pool of a context built by makeEnv and filled by
    fillTransactions is the header's gas limit less the gas of the
    receipts: a failed candidate costs nothing. *)
Theorem fillTransactions_pool_is_limit_less_used {World : Type} (TxGas : N)
        (Apply : Address -> GasPool -> @IntraBlockState World -> Header -> Transaction
                 -> @ApplyOutcome World) :
  (forall cb gp s h tx r,
      ao_result (Apply cb gp s h tx) = inr r ->
      (receipt_GasUsed r <= Gas gp)%N
      /\ Gas (ao_gasPool (Apply cb gp s h tx)) = (Gas gp - receipt_GasUsed r)%N) ->
  forall blocks header coinbase pool interrupt ibs,
    let env := fr_env (fillTransactions TxGas Apply pool interrupt
                                        (makeEnv blocks header coinbase) ibs) in
    Gas (env_gasPool env) = (hdr_GasLimit header - sum_gasUsed (env_receipts env))%N
    /\ hdr_GasLimit (env_header env) = hdr_GasLimit header.
Proof.
  intros Hdebit blocks header coinbase pool interrupt ibs env. subst env.
  destruct (makeEnv_fields blocks header coinbase) as (_ & R & P & Hh & _ & _).
  set (env0 := makeEnv blocks header coinbase) in *.
  set (inv := fun e : environment =>
                (sum_gasUsed (env_receipts e) + Gas (env_gasPool e))%N
                = hdr_GasLimit header
                /\ hdr_GasLimit (env_header e) = hdr_GasLimit header).
  assert (I0 : inv (env_set_txs env0 [])).
  { unfold inv. simpl. rewrite R, P, Hh. split; reflexivity. }
  assert (I : inv (fr_env (fillTransactions TxGas Apply pool interrupt env0 ibs))).
  { unfold fillTransactions. destruct pool as [e|cands]; [exact I0|].
    apply (loop_preserves TxGas Apply inv interrupt); [|exact I0].
    intros k tx e s e' s' l [He Hl] Hb. unfold inv.
    destruct (body_cases TxGas Apply interrupt k tx e s)
      as [B|[B|[(e1 & s1 & l1 & B & _ & R1 & P1 & L1)
               |(e1 & s1 & r & B & A & _ & R1 & P1 & L1)]]];
      rewrite B in Hb; try discriminate; injection Hb as <- <- <-.
    - rewrite R1, P1, L1. split; assumption.
    - destruct (Hdebit _ _ _ _ _ _ A) as [Hle Hgp].
      rewrite R1, P1, L1, sum_gasUsed_snoc. split; [|assumption].
      unfold attempt in *. rewrite Hgp. unfold Gas in *. lia. }
  destruct I as [I1 I2]. split; [|exact I2]. unfold Gas in *. lia.
Qed.

Lemma fillTransactions_pool_is_limit_less_used_witness :
  let env := fr_env (fillTransactions 21000%N demo_apply
                                      (inr [demo_tx1; demo_tx2; demo_tx3])
                                      None (makeEnv [8; 9] demo_header 77) demo_ibs) in
  Gas (env_gasPool env) = N.sub (hdr_GasLimit demo_header) (sum_gasUsed (env_receipts env))
  /\ hdr_GasLimit (env_header env) = hdr_GasLimit demo_header.
Proof.
  apply (fillTransactions_pool_is_limit_less_used 21000%N demo_apply).
  intros cb gp s h tx r. unfold demo_apply, Gas.
  destruct (tx_Payload tx <? 0); [discriminate|].
  destruct (N.ltb_spec gp (Z.to_N (tx_Payload tx))); [discriminate|].
  simpl. intros [= <-]. simpl. split; [assumption | reflexivity].
Defined.
